(** * MainWindow: the dataset editor of ai-2027-wargames

    A shallow embedding of [src/MainWindow.tsx]: the in-memory table
    ([Data]: headers and rows), the handlers that edit it, and the
    pipeline that saves and loads it.

    The JavaScript objects the handlers share are kept in a store.  A
    row object lives in a cell of the store and a snapshot holds the
    addresses of its rows, so that an assignment through
    [newRows[rowIndex]] is seen by every snapshot that holds the same
    row, exactly as in the running program.

    The first part of the file holds the definitions, the second part
    the lemmas and theorems about them. *)

From Stdlib Require Import ZArith Floats Ascii.
From stdpp Require Import gmap strings list fin_maps pretty.

Open Scope Z_scope.

(** ** JavaScript values, arrays and dates *)

Module JS.

(** What reading a property of a [values] object gives: a number
    (IEEE 754 binary64, as Rocq's primitive floats), [undefined], or,
    for a key that the object does not have itself, what it inherits
    from [Object.prototype]: [Inherited k] is the value of
    [Object.prototype[k]], one of the functions of [Object.prototype],
    or for [k = "__proto__"] the object [Object.prototype] itself. *)
Inductive value :=
| Num (v : float)
| Undefined
| Inherited (k : string).

(** [Number(x)]: a function and [Object.prototype] are turned into
    strings that are no numerals. *)
Definition ToNumber (x : value) : float :=
  match x with
  | Num v => v
  | Undefined => nan
  | Inherited _ => nan
  end.

(** The global [isNaN(x)]: [Number(x)] is NaN. *)
Definition isNaN (x : value) : bool :=
  match classify (ToNumber x) with
  | NaN => true
  | _ => false
  end.

(** [Number.isFinite(x)]: a number that is neither NaN nor an infinity. *)
Definition isFinite (x : value) : bool :=
  match x with
  | Num v => match classify v with
             | NaN | PInf | NInf => false
             | _ => true
             end
  | Undefined => false
  | Inherited _ => false
  end.

Inductive exn :=
| TypeError     (* a property read of [undefined], an assignment that is refused *)
| RangeError    (* date-fns [format] on an invalid date *)
| IOError       (* a rejected promise of the file-system plugin *)
| DanglingRef.  (* an address outside the store: no JavaScript program has one *)

(** [error.message]; the texts of [TypeError] and [IOError] are the
    engine's and the plugin's, the ones here stand for them. *)
Definition exn_message (e : exn) : string :=
  match e with
  | TypeError => "Cannot read properties of undefined"
  | RangeError => "Invalid time value"
  | IOError => "No such file or directory"
  | DanglingRef => "dangling reference"
  end.

(** [xs[i]] for an integer [i]. *)
Definition Array_get {A} (xs : list A) (i : Z) : option A :=
  if 0 <=? i then xs !! Z.to_nat i else None.

(** [xs.filter((x, index) => keep(x, index))] *)
Fixpoint filter_from {A} (keep : A → Z → bool) (i : Z) (xs : list A) : list A :=
  match xs with
  | [] => []
  | x :: xs' =>
      if keep x i then x :: filter_from keep (i + 1) xs'
      else filter_from keep (i + 1) xs'
  end.

Definition Array_filter {A} (keep : A → Z → bool) (xs : list A) : list A :=
  filter_from keep 0 xs.

(** [Object.fromEntries(entries)]: a later entry overrides an earlier one. *)
Definition fromEntries {V} (entries : list (string * V)) : gmap string V :=
  foldl (λ o kv, <[kv.1 := kv.2]> o) ∅ entries.

(** The functions of [Object.prototype] (ECMA-262, 20.1.3 and B.2.2);
    its one other property is the accessor [__proto__]. *)
Definition Object_prototype_functions : list string :=
  ["constructor"; "hasOwnProperty"; "isPrototypeOf"; "propertyIsEnumerable";
   "toLocaleString"; "toString"; "valueOf";
   "__defineGetter__"; "__defineSetter__"; "__lookupGetter__"; "__lookupSetter__"].

(** [o[k]] for an object literal [o] with the own properties [o]: an
    own property is read; a key that [o] does not have is looked up in
    [Object.prototype], where [__proto__] reads as the prototype of
    [o], which is [Object.prototype]; any other key reads as
    [undefined]. *)
Definition read_prop (o : gmap string value) (k : string) : value :=
  match o !! k with
  | Some v => v
  | None =>
      if String.eqb k "__proto__" || bool_decide (k ∈ Object_prototype_functions)
      then Inherited k
      else Undefined
  end.

(** The prototype of a [values] object: [Object.prototype], as for
    every object literal, or, after an assignment to [__proto__], the
    function [Object.prototype[k]]. *)
Inductive prototype :=
| Object_prototype
| Function_of (k : string).

(** The keys that an object with the prototype [p] inherits and cannot
    be assigned: a function has the read-only properties [length] and
    [name] ([Object], the [constructor], also [prototype]) and
    inherits from [Function.prototype] the accessors [arguments] and
    [caller], whose setter throws.  The properties of
    [Object.prototype] are writable. *)
Definition restricted (p : prototype) (k : string) : bool :=
  match p with
  | Object_prototype => false
  | Function_of f =>
      bool_decide (k ∈ ["length"; "name"; "arguments"; "caller"])
      || (String.eqb f "constructor" && String.eqb k "prototype")
  end.

(** [o[k] = v] for an object with the own properties [o] that takes
    the assignment (ECMA-262, 10.1.9): an own property is overwritten.
    For a key that the object does not have, [__proto__] runs the
    setter of [Object.prototype], which makes an object or a function
    the prototype and ignores any other value; any other key becomes
    an own property.  The result is the own properties after the
    assignment and the new prototype, if the assignment has set one. *)
Definition assigned (o : gmap string value) (k : string) (v : value)
    : gmap string value * option prototype :=
  match o !! k with
  | Some _ => (<[k := v]> o, None)
  | None =>
      if String.eqb k "__proto__" then
        (o, match v with
            | Inherited f =>
                Some (if String.eqb f "__proto__" then Object_prototype else Function_of f)
            | _ => None
            end)
      else (<[k := v]> o, None)
  end.

(** [o[k] = v] in a module, which is strict code, for an object with
    the own properties [o] and the prototype [p]: a [TypeError] when
    the key is not the object's own and is inherited read-only or
    with a setter that throws. *)
Definition assign_property (o : gmap string value) (p : prototype) (k : string) (v : value)
    : exn + (gmap string value * option prototype) :=
  match o !! k with
  | None => if negb (String.eqb k "__proto__") && restricted p k then inl TypeError
            else inr (assigned o k v)
  | Some _ => inr (assigned o k v)
  end.

(** *** Day numbers (ECMA-262, 21.4.1)

    Days are counted from 1970-01-01 in the proleptic Gregorian
    calendar; months are 1..12 in [days_from_civil] and
    [civil_from_days]. *)

Definition days_from_civil (y m d : Z) : Z :=
  let y' := if m <=? 2 then y - 1 else y in
  let era := y' / 400 in
  let yoe := y' - era * 400 in
  let doy := (153 * (if 2 <? m then m - 3 else m + 9) + 2) / 5 + d - 1 in
  let doe := yoe * 365 + yoe / 4 - yoe / 100 + doy in
  era * 146097 + doe - 719468.

Definition civil_from_days (z : Z) : Z * Z * Z :=
  let z := z + 719468 in
  let era := z / 146097 in
  let doe := z - era * 146097 in
  let yoe := (doe - doe / 1460 + doe / 36524 - doe / 146096) / 365 in
  let doy := doe - (365 * yoe + yoe / 4 - yoe / 100) in
  let mp := (5 * doy + 2) / 153 in
  let d := doy - (153 * mp + 2) / 5 + 1 in
  let m := if mp <? 10 then mp + 3 else mp - 9 in
  (if m <=? 2 then yoe + era * 400 + 1 else yoe + era * 400, m, d).

Definition leap_year (y : Z) : bool :=
  (y mod 4 =? 0) && (negb (y mod 100 =? 0) || (y mod 400 =? 0)).

Definition days_in_month (y m : Z) : Z :=
  if m =? 2 then (if leap_year y then 29 else 28)
  else if (m =? 4) || (m =? 6) || (m =? 9) || (m =? 11) then 30
  else 31.

(** [MakeDay(year, month, date)], the month counted from 0 and allowed
    to overflow into the neighbouring years, the date allowed to
    overflow into the neighbouring months. *)
Definition MakeDay (year month dt : Z) : Z :=
  days_from_civil (year + month / 12) (month mod 12 + 1) 1 + dt - 1.

Definition minutesPerDay : Z := 1440.

(** A [Date] object, by its local wall-clock reading [LocalTime(t)]:
    the local day number and the minutes since local midnight.  Every
    operation the program applies to a date ([getDate], [getMonth],
    [getFullYear], [setMonth], [setFullYear], date-fns [format]) reads
    or writes local fields. *)
Inductive Date :=
| InvalidDate
| LocalTime (day minute : Z).

Definition digit (c : ascii) : option Z :=
  let n := Z.of_nat (nat_of_ascii c) in
  if (48 <=? n) && (n <=? 57) then Some (n - 48) else None.

(** The date-only form [YYYY-MM-DD] of the ECMAScript date-time string
    format, for a day that exists in the calendar. *)
Definition parse_date_only (s : string) : option (Z * Z * Z) :=
  match String.list_ascii_of_string s with
  | [y1; y2; y3; y4; s1; m1; m2; s2; d1; d2] =>
      y1 ← digit y1; y2 ← digit y2; y3 ← digit y3; y4 ← digit y4;
      m1 ← digit m1; m2 ← digit m2; d1 ← digit d1; d2 ← digit d2;
      let y := 1000 * y1 + 100 * y2 + 10 * y3 + y4 in
      let m := 10 * m1 + m2 in
      let d := 10 * d1 + d2 in
      if Ascii.eqb s1 "-" && Ascii.eqb s2 "-"
         && (1 <=? m) && (m <=? 12) && (1 <=? d) && (d <=? days_in_month y m)
      then Some (y, m, d) else None
  | _ => None
  end.

Section Host.

(** The host's time zone, in minutes east of UTC (the opposite of
    [getTimezoneOffset()]); daylight saving is not modelled. *)
Variable tz : Z.

(** What the engine makes of a string that is not a date-only form:
    other ISO forms and the engine's own fallback formats. *)
Variable Date_parse_other : string → Date.

(** [new Date(s)]: a date-only form is midnight UTC of that day, seen
    here through the host's clock. *)
Definition new_Date (s : string) : Date :=
  match parse_date_only s with
  | Some (y, m, d) =>
      let t := MakeDay y (m - 1) d * minutesPerDay in
      LocalTime ((t + tz) / minutesPerDay) ((t + tz) mod minutesPerDay)
  | None => Date_parse_other s
  end.

End Host.

(** [getFullYear()], [getMonth()] (from 0) and [getDate()] of a valid date. *)
Definition getFullYear (day : Z) : Z := (civil_from_days day).1.1.
Definition getMonth (day : Z) : Z := (civil_from_days day).1.2 - 1.
Definition getDate (day : Z) : Z := (civil_from_days day).2.

(** [d.setMonth(month, dt)] and [d.setFullYear(year, month, dt)] on the
    day number, the time within the day being kept. *)
Definition setMonth (day month dt : Z) : Z := MakeDay (getFullYear day) month dt.
Definition setFullYear (year month dt : Z) : Z := MakeDay year month dt.

End JS.

(** ** date-fns (a dependency of the repository)

    [addMonths], [subMonths] and [format] as the library defines them. *)

Module DateFns.

Import JS.

Definition addMonths (date : Date) (amount : Z) : Date :=
  match date with
  | InvalidDate => InvalidDate
  | LocalTime day minute =>
      if amount =? 0 then date
      else
        let dayOfMonth := getDate day in
        let endOfDesiredMonth := setMonth day (getMonth day + amount + 1) 0 in
        let daysInMonth := getDate endOfDesiredMonth in
        if daysInMonth <=? dayOfMonth then LocalTime endOfDesiredMonth minute
        else
          LocalTime (setFullYear (getFullYear endOfDesiredMonth)
                                 (getMonth endOfDesiredMonth) dayOfMonth) minute
  end.

Definition subMonths (date : Date) (amount : Z) : Date :=
  addMonths date (- amount).

Fixpoint zeros (n : nat) : string :=
  match n with
  | O => ""
  | S n' => String "0" (zeros n')
  end.

(** [addLeadingZeros(number, targetLength)] for a number that is not negative. *)
Definition addLeadingZeros (number : Z) (targetLength : nat) : string :=
  let output := pretty number in
  zeros (targetLength - String.length output) +:+ output.

(** [format(date, "yyyy-MM-dd")]: a [RangeError] on an invalid date;
    the year of the token [yyyy] is the year of the era. *)
Definition format (date : Date) : exn + string :=
  match date with
  | InvalidDate => inl RangeError
  | LocalTime day _ =>
      let signedYear := getFullYear day in
      let year := if 0 <? signedYear then signedYear else 1 - signedYear in
      inr (addLeadingZeros year 4 +:+ "-"
           +:+ addLeadingZeros (getMonth day + 1) 2 +:+ "-"
           +:+ addLeadingZeros (getDate day) 2)
  end.

End DateFns.

(** ** JSON documents *)

Module Json.

#[warnings="-register-all"]
Inductive json :=
| JNull
| JBool (b : bool)
| JNumber (v : float)
| JString (s : string)
| JArray (items : list json)
| JObject (fields : list (string * json)).

(** A text file, by what [JSON.parse] makes of its content: a document,
    or a syntax error.  [JSON.stringify] writes the text of a
    document; the layout of the text (the indentation by two spaces)
    and the digits of a number are not modelled, a number is the
    binary64 value that its shortest decimal form reads back as. *)
Inductive text :=
| Document (j : json)
| NotJson.

Definition JSON_parse (t : text) : option json :=
  match t with
  | Document j => Some j
  | NotJson => None
  end.

(** The value of the property [k] of a parsed object: the last
    occurrence of the key stands. *)
Fixpoint field (fields : list (string * json)) (k : string) : option json :=
  match fields with
  | [] => None
  | (k', j) :: fields' =>
      match field fields' k with
      | Some j' => Some j'
      | None => if String.eqb k' k then Some j else None
      end
  end.

End Json.

Import JS Json.

(** ** The data model *)

(** [Data["rows"][number]]: [{ date: string, values: Record<string, number>,
    hidden?: boolean }].  The [values] object of a row is reached through
    that row only: every handler that builds a row gives it a [values]
    object of its own, but for [applyLoadedData], whose rows take over
    the objects of the parsed file, which nothing else holds.  So the
    [values] object is kept inside the row's cell, and an assignment
    to [row.values[header]] is an assignment to the row. *)
Record Row := {
  date : string;
  values : gmap string value;
  hidden : option bool;
}.

Definition loc := nat.

(** [Data]: [{ headers: string[], rows: Row[] }], the rows by address. *)
Record Data := {
  headers : list string;
  rows : list loc;
}.

(** What a handler shows or reports. *)
Inductive event :=
| Message (text title kind : string)
| ConsoleError (label : string) (e : exn)
| Uncaught (e : exn).

(** The component and its surroundings: the store of row objects, the
    [data] state variable, what has been shown to the user so far, and
    the files on disk.  [prototypes] holds, for the address of a row
    whose [values] object has a function [Object.prototype[k]] as its
    prototype, the key [k]; the [values] object of every other row has
    the prototype [Object.prototype].  [refused] holds the paths that
    the file system, or the scope of the plugin, does not let the
    program write or create, with the error that its promise is
    rejected with. *)
Record World := {
  heap : list Row;
  data : Data;
  log : list event;
  files : gmap string text;
  prototypes : gmap loc string;
  refused : gmap string exn;
}.

Definition set_heap (w : World) (h : list Row) : World :=
  {| heap := h; data := data w; log := log w; files := files w;
     prototypes := prototypes w; refused := refused w |}.
Definition set_data (w : World) (d : Data) : World :=
  {| heap := heap w; data := d; log := log w; files := files w;
     prototypes := prototypes w; refused := refused w |}.
Definition add_log (w : World) (ev : event) : World :=
  {| heap := heap w; data := data w; log := log w ++ [ev]; files := files w;
     prototypes := prototypes w; refused := refused w |}.
Definition set_file (w : World) (path : string) (t : text) : World :=
  {| heap := heap w; data := data w; log := log w; files := <[path := t]> (files w);
     prototypes := prototypes w; refused := refused w |}.
Definition set_prototypes (w : World) (ps : gmap loc string) : World :=
  {| heap := heap w; data := data w; log := log w; files := files w;
     prototypes := ps; refused := refused w |}.

(** The prototype of the [values] object of the row at [l]. *)
Definition prototype_of (ps : gmap loc string) (l : loc) : prototype :=
  match ps !! l with
  | Some f => Function_of f
  | None => Object_prototype
  end.

Definition with_prototype (ps : gmap loc string) (l : loc) (p : prototype) : gmap loc string :=
  match p with
  | Object_prototype => delete l ps
  | Function_of f => <[l := f]> ps
  end.

(** The prototypes after objects with the prototypes [new] have been
    built at the addresses from [l] on. *)
Fixpoint with_prototypes (ps : gmap loc string) (l : loc) (new : list prototype)
    : gmap loc string :=
  match new with
  | [] => ps
  | p :: new' => with_prototypes (with_prototype ps l p) (S l) new'
  end.

(** The world after the objects [new] have been built, each with its
    prototype. *)
Definition grow (w : World) (new : list (Row * prototype)) : World :=
  {| heap := heap w ++ new.*1; data := data w; log := log w; files := files w;
     prototypes := with_prototypes (prototypes w) (length (heap w)) new.*2;
     refused := refused w |}.

(** The world after the rows [new] have been built, their [values]
    objects being object literals. *)
Definition extend (w : World) (new : list Row) : World :=
  grow w ((λ row, (row, Object_prototype)) <$> new).

(** [{ ...row, values: v }], [{ ...row, hidden: b }], [row.date = s] *)
Definition with_values (row : Row) (v : gmap string value) : Row :=
  {| date := date row; values := v; hidden := hidden row |}.
Definition with_hidden (row : Row) (b : option bool) : Row :=
  {| date := date row; values := values row; hidden := b |}.
Definition with_date (row : Row) (s : string) : Row :=
  {| date := s; values := values row; hidden := hidden row |}.

(** ** Handlers as computations over the component *)

Inductive res (A : Type) :=
| Val (a : A) (w : World)
| Exn (e : exn) (w : World).
Arguments Val {A} a w.
Arguments Exn {A} e w.

Definition M (A : Type) : Type := World → res A.

#[global] Instance M_ret : MRet M := λ A a w, Val a w.
#[global] Instance M_bind : MBind M := λ A B f m w,
  match m w with
  | Val a w' => f a w'
  | Exn e w' => Exn e w'
  end.

Definition throw {A} (e : exn) : M A := λ w, Exn e w.

Definition lift {A} (r : exn + A) : M A :=
  match r with
  | inl e => throw e
  | inr a => mret a
  end.

(** Reading the object at an address. *)
Definition deref (l : loc) : M Row := λ w,
  match heap w !! l with
  | Some row => Val row w
  | None => Exn DanglingRef w
  end.

(** A new row object in a fresh cell, its [values] object having the
    prototype [p]. *)
Definition alloc_object (row : Row) (p : prototype) : M loc := λ w,
  Val (length (heap w)) (grow w [(row, p)]).

(** A row whose [values] object is an object literal, or one read
    from a file. *)
Definition alloc (row : Row) : M loc := alloc_object row Object_prototype.

(** An assignment to a property of the row object at [l]. *)
Definition store (l : loc) (f : Row → Row) : M unit := λ w,
  match heap w !! l with
  | Some row => Val () (set_heap w (<[l := f row]> (heap w)))
  | None => Exn DanglingRef w
  end.

(** [row.values[k] = v] for the row object at [l]. *)
Definition assign (l : loc) (k : string) (v : value) : M unit := λ w,
  match heap w !! l with
  | Some row =>
      match assign_property (values row) (prototype_of (prototypes w) l) k v with
      | inr (o, None) => Val () (set_heap w (<[l := with_values row o]> (heap w)))
      | inr (o, Some p) =>
          Val () (set_prototypes (set_heap w (<[l := with_values row o]> (heap w)))
                                 (with_prototype (prototypes w) l p))
      | inl e => Exn e w
      end
  | None => Exn DanglingRef w
  end.

Definition setData (d : Data) : M unit := λ w, Val () (set_data w d).

Definition emit_event (ev : event) : M unit := λ w, Val () (add_log w ev).

(** [message(text, { title, kind })] of the dialog plugin. *)
Definition message (text title kind : string) : M unit :=
  emit_event (Message text title kind).

(** [writeTextFile(path, contents)]: the promise is rejected when the
    path is refused. *)
Definition writeTextFile (path : string) (t : text) : M unit := λ w,
  match refused w !! path with
  | Some e => Exn e w
  | None => Val () (set_file w path t)
  end.

(** [mkdir(path, { recursive: true })]; the directories themselves
    are not modelled. *)
Definition mkdir (path : string) : M unit := λ w,
  match refused w !! path with
  | Some e => Exn e w
  | None => Val () w
  end.

(** [readTextFile(path)] *)
Definition readTextFile (path : string) : M text := λ w,
  match files w !! path with
  | Some t => Val t w
  | None => Exn IOError w
  end.

(** [try { body } catch (error) { handler(error) }] *)
Definition try_catch {A} (body : M A) (handler : exn → M A) : M A := λ w,
  match body w with
  | Val a w' => Val a w'
  | Exn e w' => handler e w'
  end.

(** Running an event handler: an exception nobody caught ends it. *)
Definition run (m : M unit) (w : World) : World :=
  match m w with
  | Val _ w' => w'
  | Exn e w' => add_log w' (Uncaught e)
  end.

(** [rows.map((row) => f(row))], where [f] builds a new row object
    and a new [values] object: each row is read and the new object is
    put into a fresh cell. *)
Definition map_objects (f : Row → Row * prototype) (ls : list loc) : M (list loc) :=
  mapM (λ l, row ← deref l; alloc_object (f row).1 (f row).2) ls.

(** The same for an [f] whose [values] object is an object literal. *)
Definition map_rows (f : Row → Row) (ls : list loc) : M (list loc) :=
  map_objects (λ row, (f row, Object_prototype)) ls.

(** ** Column operations *)

Definition add_column_row (newHeader : string) (row : Row) : Row :=
  with_values row (<[newHeader := Num 1]> (values row)).

(** [addColumn] (source lines 266-275). *)
Definition addColumn (w : World) : World :=
  let data := data w in
  let newHeader := "Lab " +:+ pretty (length (headers data) + 1)%nat in
  run (rows' ← map_rows (add_column_row newHeader) (rows data);
       setData {| headers := headers data ++ [newHeader]; rows := rows' |}) w.

Definition remove_column_row (headerToRemove : string) (row : Row) : Row :=
  let newValues := values row in
  let newValues := delete headerToRemove newValues in
  with_values row newValues.

(** [removeColumn] (source lines 277-286). *)
Definition removeColumn (headerToRemove : string) (w : World) : World :=
  let data := data w in
  run (rows' ← map_rows (remove_column_row headerToRemove) (rows data);
       setData {| headers := filter (λ header, header ≠ headerToRemove) (headers data);
                  rows := rows' |}) w.

(** The body of [updateHeader]'s [rows.map]: [newValues] is an object
    literal with the own properties of [row.values], which takes
    every assignment; [newValues[newHeader] = newValues[oldHeader]]
    reads and writes as JavaScript does, and
    [delete newValues[oldHeader]] comes after it.  The result is the
    new row and the prototype that [newValues] ends with. *)
Definition rename_column_object (oldHeader newHeader : string) (row : Row) : Row * prototype :=
  let newValues := values row in
  let '(newValues, p) := assigned newValues newHeader (read_prop newValues oldHeader) in
  let newValues := delete oldHeader newValues in
  (with_values row newValues, default Object_prototype p).

Definition rename_column_row (oldHeader newHeader : string) (row : Row) : Row :=
  (rename_column_object oldHeader newHeader row).1.

Definition rename_header (oldHeader newHeader header : string) : string :=
  if bool_decide (header = oldHeader) then newHeader else header.

(** [updateHeader] (source lines 288-308). *)
Definition updateHeader (oldHeader newHeader : string) (w : World) : World :=
  let data := data w in
  run (if bool_decide (newHeader ∈ headers data) && negb (bool_decide (newHeader = oldHeader))
       then message "A column with this name already exists" "Validation Error" "error"
       else
         rows' ← map_objects (rename_column_object oldHeader newHeader) (rows data);
         setData {| headers := rename_header oldHeader newHeader <$> headers data;
                    rows := rows' |}) w.

(** ** Row operations *)

(** [removeRow] (source lines 335-340). *)
Definition removeRow (rowIndex : Z) (w : World) : World :=
  let data := data w in
  run (setData {| headers := headers data;
                  rows := Array_filter (λ _ index, negb (index =? rowIndex)) (rows data) |}) w.

(** [toggleRowVisibility] (source lines 342-346): [newRows] is a new
    array of the same row objects, and the assignment goes to the row
    object itself.  [!undefined] is [true]. *)
Definition toggleRowVisibility (rowIndex : Z) (w : World) : World :=
  let data := data w in
  run (let newRows := rows data in
       match Array_get newRows rowIndex with
       | None => throw TypeError
       | Some l =>
           store l (λ row, with_hidden row (Some (negb (default false (hidden row)))));;
           setData {| headers := headers data; rows := newRows |}
       end) w.

Section Host.

Variable tz : Z.
Variable Date_parse_other : string → Date.

(** [parseFloat] of the engine. *)
Variable parseFloat : string → float.

(** [updateValue] (source lines 328-333). *)
Definition updateValue (rowIndex : Z) (header value : string) (w : World) : World :=
  let data := data w in
  run (let numValue := parseFloat value in
       let newRows := rows data in
       match Array_get newRows rowIndex with
       | None => throw TypeError
       | Some l =>
           assign l header (Num numValue);;
           setData {| headers := headers data; rows := newRows |}
       end) w.

(** [incrementMonth] (source lines 310-317): the date is written into
    the row object that [newRows] shares with [data.rows]. *)
Definition incrementMonth (rowIndex : Z) (w : World) : World :=
  let data := data w in
  run (match Array_get (rows data) rowIndex with
       | None => throw TypeError
       | Some l =>
           row ← deref l;
           let currentDate := new_Date tz Date_parse_other (date row) in
           let newDate := DateFns.addMonths currentDate 1 in
           let newRows := rows data in
           s ← lift (DateFns.format newDate);
           store l (λ row, with_date row s);;
           setData {| headers := headers data; rows := newRows |}
       end) w.

(** [decrementMonth] (source lines 319-326). *)
Definition decrementMonth (rowIndex : Z) (w : World) : World :=
  let data := data w in
  run (match Array_get (rows data) rowIndex with
       | None => throw TypeError
       | Some l =>
           row ← deref l;
           let currentDate := new_Date tz Date_parse_other (date row) in
           let newDate := DateFns.subMonths currentDate 1 in
           let newRows := rows data in
           s ← lift (DateFns.format newDate);
           store l (λ row, with_date row s);;
           setData {| headers := headers data; rows := newRows |}
       end) w.

(** [addRow] (source lines 218-264). *)
Definition addRow (w : World) : World :=
  let data := data w in
  run (try_catch
         (if (length (rows data) =? 0)%nat then
            let today := new_Date tz Date_parse_other "2027-10-14" in
            s ← lift (DateFns.format today);
            l ← alloc {| date := s;
                         values := fromEntries ((λ header, (header, Num 1)) <$> headers data);
                         hidden := Some false |};
            setData {| headers := headers data; rows := [l] |}
          else
            match Array_get (rows data) (Z.of_nat (length (rows data)) - 1) with
            | None => throw TypeError
            | Some last =>
                lastRow ← deref last;
                let lastRowDate := new_Date tz Date_parse_other (date lastRow) in
                let newDate := DateFns.addMonths lastRowDate 3 in
                let lastRowValues := values lastRow in
                s ← lift (DateFns.format newDate);
                l ← alloc {| date := s; values := lastRowValues; hidden := Some true |};
                setData {| headers := headers data; rows := rows data ++ [l] |}
            end)
         (λ error,
            emit_event (ConsoleError "Error adding row:" error);;
            message ("Error adding row: " +:+ exn_message error) "Error" "error")) w.

(** ** Saving and loading *)

Definition prepare_row (row : Row) : Row :=
  with_values row ((λ value, if isNaN value then Num 0 else value) <$> values row).

(** [prepareData] (source lines 51-66). *)
Definition prepareData (data : Data) : M Data :=
  rows' ← map_rows prepare_row (rows data);
  mret {| headers := headers data; rows := rows' |}.

Definition normalize_row (row : Row) : Row :=
  with_hidden row (Some (default false (hidden row))).

(** [applyLoadedData] (source lines 96-104). *)
Definition applyLoadedData (loadedData : Data) : M unit :=
  rows' ← map_rows normalize_row (rows loadedData);
  setData {| headers := headers loadedData; rows := rows' |}.

(** What [JSON.stringify] writes for a number: [null] for NaN and the
    infinities, and [0] for the negative zero. *)
Definition number_json (v : float) : json :=
  match classify v with
  | NaN | PInf | NInf => JNull
  | NZero => JNumber 0
  | _ => JNumber v
  end.

(** A property whose value is [undefined] or a function is left out,
    and [Object.prototype], which has no enumerable property, is
    written as an empty object.  The order in which the keys are
    written is not modelled. *)
Definition values_json (o : gmap string value) : json :=
  JObject (map_to_list (omap (λ value, match value with
                                       | Num v => Some (number_json v)
                                       | Undefined => None
                                       | Inherited k =>
                                           if String.eqb k "__proto__" then Some (JObject [])
                                           else None
                                       end) o)).

Definition row_json (row : Row) : json :=
  JObject ([("date", JString (date row)); ("values", values_json (values row))]
           ++ match hidden row with
              | Some b => [("hidden", JBool b)]
              | None => []
              end).

Definition data_json (hs : list string) (rs : list Row) : json :=
  JObject [("headers", JArray (JString <$> hs)); ("rows", JArray (row_json <$> rs))].

(** [JSON.stringify(dataToSave, null, 2)] *)
Definition stringify (d : Data) : M text :=
  rs ← mapM deref (rows d);
  mret (Document (data_json (headers d) rs)).

(** [saveDataToFile] (source lines 145-178), [filePath] being the
    answer of the save dialog. *)
Definition saveDataToFile (filePath : option string) (w : World) : World :=
  let data := data w in
  run (try_catch
         (dataToSave ← prepareData data;
          match filePath with
          | Some filePath =>
              t ← stringify dataToSave;
              writeTextFile filePath t;;
              message "File saved successfully" "Success" "info"
          | None => mret ()
          end)
         (λ error,
            emit_event (ConsoleError "Failed to save file:" error);;
            message ("Failed to save file: " +:+ exn_message error) "Save Error" "error")) w.

(** *** The schema *)

Definition issue : Type := list string * string.

(** Validating every element of an array, all the issues being kept. *)
Fixpoint validate_items {A} (check : nat → json → list issue + A) (i : nat)
    (items : list json) : list issue + list A :=
  match items with
  | [] => inr []
  | j :: items' =>
      match check i j, validate_items check (S i) items' with
      | inr a, inr rest => inr (a :: rest)
      | inl e, inr _ => inl e
      | inr _, inl e' => inl e'
      | inl e, inl e' => inl (e ++ e')
      end
  end.

Definition validate_string (path : list string) (j : json) : list issue + string :=
  match j with
  | JString s => inr s
  | _ => inl [(path, "Expected string")]
  end.

Definition validate_number (path : list string) (j : json) : list issue + value :=
  match j with
  | JNumber v => inr (Num v)
  | _ => inl [(path, "Expected number")]
  end.

Definition validate_date (path : list string) (j : json) : list issue + string :=
  match j with
  | JString s =>
      match new_Date tz Date_parse_other s with
      | InvalidDate => inl [(path, "Invalid date")]
      | LocalTime _ _ => inr s
      end
  | _ => inl [(path, "Expected string")]
  end.

Fixpoint validate_entries (path : list string) (fields : list (string * json))
    : list issue + list (string * value) :=
  match fields with
  | [] => inr []
  | (k, j) :: fields' =>
      match validate_number (path ++ [k]) j, validate_entries path fields' with
      | inr v, inr rest => inr ((k, v) :: rest)
      | inl e, inr _ => inl e
      | inr _, inl e' => inl e'
      | inl e, inl e' => inl (e ++ e')
      end
  end.

Definition validate_values (path : list string) (j : option json)
    : list issue + gmap string value :=
  match j with
  | Some (JObject fields) =>
      match validate_entries path fields with
      | inr entries => inr (fromEntries entries)
      | inl e => inl e
      end
  | Some _ => inl [(path, "Expected object")]
  | None => inl [(path, "Required")]
  end.

Definition validate_hidden (path : list string) (j : option json)
    : list issue + option bool :=
  match j with
  | Some (JBool b) => inr (Some b)
  | Some _ => inl [(path, "Expected boolean")]
  | None => inr None
  end.

Definition required {A} (check : list string → json → list issue + A)
    (path : list string) (j : option json) : list issue + A :=
  match j with
  | Some j => check path j
  | None => inl [(path, "Required")]
  end.

Definition issues_of {A} (r : list issue + A) : list issue :=
  match r with
  | inl e => e
  | inr _ => []
  end.

Definition validate_row (i : nat) (j : json) : list issue + Row :=
  let path := ["rows"; pretty i] in
  match j with
  | JObject fields =>
      let d := required validate_date (path ++ ["date"]) (field fields "date") in
      let v := validate_values (path ++ ["values"]) (field fields "values") in
      let h := validate_hidden (path ++ ["hidden"]) (field fields "hidden") in
      match d, v, h with
      | inr d, inr v, inr h => inr {| date := d; values := v; hidden := h |}
      | _, _, _ => inl (issues_of d ++ issues_of v ++ issues_of h)
      end
  | _ => inl [(path, "Expected object")]
  end.

Definition validate_array {A} (check : nat → json → list issue + A)
    (path : list string) (j : json) : list issue + list A :=
  match j with
  | JArray items => validate_items check 0 items
  | _ => inl [(path, "Expected array")]
  end.

(** Modelled from the spec: [dataSchema.safeParse] of [src/dataSchema.ts],
    which is not among the source files.  After sections 4.1 and 6 of
    the specification: [headers] is a sequence of strings, [rows] a
    sequence of objects with a parseable date string, a [values]
    object from strings to numbers and an optional boolean [hidden];
    every violation is reported with the path of its field.  The
    texts of the messages are not those of the library. *)
Definition safeParse (j : json) : list issue + (list string * list Row) :=
  match j with
  | JObject fields =>
      let hs := required (validate_array (λ i, validate_string ["headers"; pretty i]))
                         ["headers"] (field fields "headers") in
      let rs := required (validate_array validate_row) ["rows"] (field fields "rows") in
      match hs, rs with
      | inr hs, inr rs => inr (hs, rs)
      | _, _ => inl (issues_of hs ++ issues_of rs)
      end
  | _ => inl [([], "Expected object")]
  end.

Definition join_path (path : list string) : string :=
  String.concat "." path.

Definition newline : string := String (ascii_of_nat 10) "".

(** [parseData] (source lines 68-94). *)
Definition parseData (fileContent : text) : M (option Data) :=
  match JSON_parse fileContent with
  | None =>
      message "Invalid JSON file format" "Load Error" "error";;
      mret None
  | Some rawData =>
      match safeParse rawData with
      | inl issues =>
          let errorMessage :=
            String.concat newline ((λ err : issue, join_path err.1 +:+ ": " +:+ err.2) <$> issues) in
          message ("Invalid data format:" +:+ newline +:+ errorMessage) "Validation Error" "error";;
          mret None
      | inr (hs, rs) =>
          rows' ← mapM alloc rs;
          mret (Some {| headers := hs; rows := rows' |})
      end
  end.

(** [loadDataFromFile] (source lines 180-212), [selected] being the
    answer of the open dialog. *)
Definition loadDataFromFile (selected : option string) (w : World) : World :=
  run (try_catch
         (match selected with
          | Some selected =>
              fileContent ← readTextFile selected;
              validatedData ← parseData fileContent;
              match validatedData with
              | Some validatedData => applyLoadedData validatedData
              | None => mret ()
              end
          | None => mret ()
          end)
         (λ error,
            emit_event (ConsoleError "Failed to load file:" error);;
            message ("Failed to load file: " +:+ exn_message error) "Load Error" "error")) w.

End Host.

(** ** Reading a snapshot out of the store *)

(** The row objects a list of addresses stands for. *)
Definition read_rows (h : list Row) (ls : list loc) : option (list Row) :=
  mapM (λ l, h !! l) ls.

(** A snapshot as a value: its headers and the contents of its rows. *)
Definition snapshot (h : list Row) (d : Data) : option (list string * list Row) :=
  rs ← read_rows h (rows d); Some (headers d, rs).

(** The current snapshot of the component, as a value. *)
Definition view (w : World) : option (list string * list Row) :=
  snapshot (heap w) (data w).

(** Every row of the current snapshot is in the store. *)
Definition well_formed (w : World) : Prop :=
  is_Some (read_rows (heap w) (rows (data w))).

(** Invariant 2 of the data model: for every row, the keys of
    [row.values] are exactly the headers. *)
Definition invariant2 (w : World) : Prop :=
  ∃ rs, read_rows (heap w) (rows (data w)) = Some rs ∧
        Forall (λ row, dom (values row) =@{gset string} list_to_set (headers (data w))) rs.

(** The column operations of the mutation engine, and the worlds a
    sequence of them goes through. *)
Inductive column_op :=
| AddColumn
| RemoveColumn (header : string)
| RenameColumn (oldHeader newHeader : string).

Definition apply_column_op (op : column_op) (w : World) : World :=
  match op with
  | AddColumn => addColumn w
  | RemoveColumn header => removeColumn header w
  | RenameColumn oldHeader newHeader => updateHeader oldHeader newHeader w
  end.

Fixpoint trace (ops : list column_op) (w : World) : list World :=
  match ops with
  | [] => []
  | op :: ops' => let w' := apply_column_op op w in w' :: trace ops' w'
  end.



(** ** Sample worlds *)

Definition sample_row : Row :=
  {| date := "2027-10-14"; values := {[ "A" := Num 1 ]}; hidden := Some false |}.

(** One column [A] and one row. *)
Definition sample_world : World :=
  {| heap := [sample_row];
     data := {| headers := ["A"]; rows := [0%nat] |};
     log := [];
     files := ∅;
     prototypes := ∅;
     refused := ∅ |}.

(** Two columns [A] and [B] and one row. *)
Definition sample_world2 : World :=
  {| heap := [ {| date := "2027-10-14";
                  values := {[ "A" := Num 1; "B" := Num 2 ]};
                  hidden := Some false |} ];
     data := {| headers := ["A"; "B"]; rows := [0%nat] |};
     log := [];
     files := ∅;
     prototypes := ∅;
     refused := ∅ |}.

(** One column [A] and no row. *)
Definition empty_world : World :=
  {| heap := []; data := {| headers := ["A"]; rows := [] |}; log := []; files := ∅;
     prototypes := ∅; refused := ∅ |}.

(** An engine that reads nothing but the date-only form. *)
Definition no_other_format (s : string) : Date := InvalidDate.

(** UTC-05:00, as in New York in winter. *)
Definition utc_minus_5 : Z := -300.

(** An engine whose [parseFloat] reads every string as [7]. *)
Definition parse_seven (s : string) : float := 7%float.

(** ** Persistence: what the claims speak of *)

(** A row of the prepared copy against the row it was made from: the
    same date, the same flag, the same keys, and under each key [0]
    where [isNaN] holds of the value and the value itself elsewhere. *)
Definition prepared_from (row row' : Row) : Prop :=
  date row' = date row ∧ hidden row' = hidden row ∧
  ∀ k, values row' !! k
       = match values row !! k with
         | Some v => Some (if isNaN v then Num 0 else v)
         | None => None
         end.

(** One column [A] and one row, whose value is [Infinity], as
    [updateValue(0, "A", "Infinity")] leaves it. *)
Definition infinity_row : Row :=
  {| date := "2027-10-14"; values := {[ "A" := Num infinity ]}; hidden := Some false |}.

Definition infinity_world : World :=
  {| heap := [infinity_row];
     data := {| headers := ["A"]; rows := [0%nat] |};
     log := [];
     files := ∅;
     prototypes := ∅;
     refused := ∅ |}.

(** One column [A] and one row, whose value is NaN, as an emptied
    input leaves it. *)
Definition nan_row : Row :=
  {| date := "2027-10-14"; values := {[ "A" := Num nan ]}; hidden := None |}.

Definition nan_world : World :=
  {| heap := [nan_row];
     data := {| headers := ["A"]; rows := [0%nat] |};
     log := [];
     files := ∅;
     prototypes := ∅;
     refused := ∅ |}.

(** One column [A] and one row, whose value is the negative zero, as
    [updateValue(0, "A", "-0")] leaves it. *)
Definition negative_zero_row : Row :=
  {| date := "2027-10-14"; values := {[ "A" := Num (-0) ]}; hidden := Some false |}.

Definition negative_zero_world : World :=
  {| heap := [negative_zero_row];
     data := {| headers := ["A"]; rows := [0%nat] |};
     log := [];
     files := ∅;
     prototypes := ∅;
     refused := ∅ |}.


(** A date string that the schema accepts. *)
Definition date_accepted (tz : Z) (other : string → Date) (s : string) : bool :=
  match new_Date tz other s with
  | InvalidDate => false
  | LocalTime _ _ => true
  end.


(** [normalizeLoaded(prepareForPersistence(D))] on the current
    snapshot: [prepareData] followed by [applyLoadedData]. *)
Definition prepare_then_normalize (w : World) : World :=
  run (prepared ← prepareData (data w); applyLoadedData prepared) w.



(** A handler that only adds row objects to the store: every snapshot
    taken before it reads the same after it. *)
Definition keeps_snapshots (handler : World → World) : Prop :=
  ∀ w d v, snapshot (heap w) d = Some v → snapshot (heap (handler w)) d = Some v.

Definition world_of {A} (r : res A) : World :=
  match r with
  | Val _ w => w
  | Exn _ w => w
  end.

(** ** The rest of the component

    The handlers below are those of [MainWindow.tsx] that the first
    part leaves out: the reset, the keyboard shortcuts, the cache and
    the effect that publishes every new snapshot.  The asynchronous
    ones are taken as running to their end without another handler in
    between. *)

Section Component.

(** [DEFAULT_DATA], the content of [default-data.json]: a snapshot whose
    row objects are in the store like any others.  It is the first
    value of the state variable [data]. *)
Variable DEFAULT_DATA : Data.

(** [resetToDefaultData] (source lines 214-216). *)
Definition resetToDefaultData (w : World) : World :=
  run (setData DEFAULT_DATA) w.

Variable tz : Z.
Variable Date_parse_other : string → Date.

(** [saveDataToFile] as a closure: [data] is the state variable of
    the render that made the closure, which need not be the current
    one. *)
Definition saveDataToFile_of (data : Data) (filePath : option string) (w : World) : World :=
  run (try_catch
         (dataToSave ← prepareData data;
          match filePath with
          | Some filePath =>
              t ← stringify dataToSave;
              writeTextFile filePath t;;
              message "File saved successfully" "Success" "info"
          | None => mret ()
          end)
         (λ error,
            emit_event (ConsoleError "Failed to save file:" error);;
            message ("Failed to save file: " +:+ exn_message error) "Save Error" "error")) w.

Record KeyboardEvent := {
  ctrlKey : bool;
  metaKey : bool;
  key : string;
}.

(** [handleKeyDown] (source lines 368-392).  The listener is installed
    by an effect without dependencies, so it is the one of the first
    render for as long as the window lives, and the [saveDataToFile] it
    calls is the closure of that render: [first] is the [data] of the
    first render.  [filePath] and [selected] are the answers of the
    dialogs; the second component of the result tells whether
    [preventDefault] was called.  The two handlers it calls are
    asynchronous and catch their own errors, so its [catch] never runs. *)
Definition handleKeyDown (first : Data) (e : KeyboardEvent)
    (filePath selected : option string) (w : World) : World * bool :=
  let '(w, prevented) :=
    if (ctrlKey e || metaKey e) && String.eqb (key e) "s"
    then (saveDataToFile_of first filePath w, true)
    else (w, false) in
  if (ctrlKey e || metaKey e) && String.eqb (key e) "o"
  then (loadDataFromFile tz Date_parse_other selected w, true)
  else (w, prevented).

(** *** The cache *)

(** How the promises of [appCacheDir()] and of [join] of the path
    plugin settle: with a path, or rejected. *)
Variable appCacheDir : exn + string.
Variable join : string → string → exn + string.

(** The state variable [cacheFilePath : string | null] as a condition:
    the empty string counts as unset. *)
Definition is_set (cacheFilePath : option string) : bool :=
  match cacheFilePath with
  | Some path => negb (String.eqb path "")
  | None => false
  end.

(** [getCacheFilePath] (source lines 42-49), when the state variable
    is unset: the directory is asked for and made, and the name of
    the file is joined to it. *)
Definition resolveCacheFilePath : M string :=
  appDataDirPath ← lift appCacheDir;
  mkdir appDataDirPath;;
  lift (join appDataDirPath "ai-progress-data.cache.json").

(** [getCacheFilePath] (source lines 42-49). *)
Definition getCacheFilePath (cacheFilePath : option string) : M string :=
  match cacheFilePath with
  | Some path =>
      if negb (String.eqb path "") then mret path
      else resolveCacheFilePath
  | None => resolveCacheFilePath
  end.

(** [cacheData] (source lines 106-124).  [cacheFilePath] is the state
    variable as the closure sees it: [setCacheFilePath] changes the
    state of the next render, not this constant.  The result is the
    state after the call. *)
Definition cacheData (cacheFilePath : option string) (dataToCache : Data)
    : M (option string) :=
  try_catch
    (state ← (if negb (is_set cacheFilePath)
              then filePath ← getCacheFilePath cacheFilePath; mret (Some filePath)
              else mret cacheFilePath);
     match cacheFilePath with
     | Some path =>
         if negb (String.eqb path "")
         then t ← stringify dataToCache; writeTextFile path t
         else mret ()
     | None => mret ()
     end;;
     mret state)
    (λ error,
       emit_event (ConsoleError "Failed to cache data:" error);;
       mret cacheFilePath).

(** [exists(path)] of the file-system plugin. *)
Definition exists_file (path : string) : M bool := λ w,
  Val (bool_decide (is_Some (files w !! path))) w.

(** [loadCachedData] of the start-up effect (source lines 127-143);
    the result is the state variable [cacheFilePath] after it. *)
Definition loadCachedData (cacheFilePath : option string) : M (option string) :=
  filePath ← getCacheFilePath cacheFilePath;
  fileExists ← exists_file filePath;
  (if fileExists : bool then
     fileContent ← readTextFile filePath;
     validatedData ← parseData tz Date_parse_other fileContent;
     match validatedData with
     | Some validatedData => applyLoadedData validatedData
     | None => mret ()
     end
   else mret ());;
  mret (Some filePath).


End Component.

(** A [join] of the path plugin, as on Linux and macOS. *)
Definition slash_join (dir file : string) : exn + string := inr (dir +:+ "/" +:+ file).

(** ** The guards of the month buttons

    The buttons that call [decrementMonth] and [incrementMonth] are
    disabled by the table's rendering (source lines 463-467 and
    480-484) when the shifted date would reach the date of the
    neighbouring row.  The guards compare time values, so that the
    offsets of the host's zone at the two dates matter. *)

Section Zone.

(** The host's time zone.  [offset t] is the offset of local time
    from UTC, in minutes east of it, at the time value [t] (minutes
    since the epoch); with daylight saving it changes with [t].
    [UTC t] is the time value of the local time [t] as the engine
    works it out (ECMA-262, 21.4.1.26). *)
Variable offset : Z → Z.
Variable UTC : Z → Z.

(** What the engine makes of a string that is not a date-only form:
    its local reading, and its time value ([None] for NaN). *)
Variable Date_parse_other : string → Date.
Variable time_of_other : string → option Z.

(** The offset in effect at the instant that a date-only string denotes. *)
Definition offset_at (s : string) : Z :=
  match parse_date_only s with
  | Some (y, m, d) => offset (MakeDay y (m - 1) d * minutesPerDay)
  | None => 0
  end.

(** The time value of [new Date(s)]: midnight UTC of the day for a
    date-only form. *)
Definition time_value (s : string) : option Z :=
  match parse_date_only s with
  | Some (y, m, d) => Some (MakeDay y (m - 1) d * minutesPerDay)
  | None => time_of_other s
  end.

(** The time value of a date that [addMonths] or [subMonths] has
    made: they set the local fields of the date, and the engine takes
    the local time to a time value. *)
Definition shifted_time (d : Date) : option Z :=
  match d with
  | LocalTime day minute => Some (UTC (day * minutesPerDay + minute))
  | InvalidDate => None
  end.

(** [a <= b] and [a >= b] on [Date] objects compare their time
    values: a comparison with NaN is false. *)
Definition Date_le (a b : option Z) : bool :=
  match a, b with
  | Some x, Some y => x <=? y
  | _, _ => false
  end.

Definition Date_ge (a b : option Z) : bool :=
  match a, b with
  | Some x, Some y => y <=? x
  | _, _ => false
  end.

(** [disabled] of the button that calls [decrementMonth(rowIndex)];
    [None] when the rendering would fail. *)
Definition decrement_disabled (rowIndex : Z) (w : World) : option bool :=
  let data := data w in
  l ← Array_get (rows data) rowIndex;
  row ← heap w !! l;
  if 0 <? rowIndex then
    lp ← Array_get (rows data) (rowIndex - 1);
    prev ← heap w !! lp;
    Some (Date_le (shifted_time
                     (DateFns.subMonths
                        (new_Date (offset_at (date row)) Date_parse_other (date row)) 1))
                  (time_value (date prev)))
  else Some false.

(** [disabled] of the button that calls [incrementMonth(rowIndex)]. *)
Definition increment_disabled (rowIndex : Z) (w : World) : option bool :=
  let data := data w in
  l ← Array_get (rows data) rowIndex;
  row ← heap w !! l;
  if rowIndex <? Z.of_nat (length (rows data)) - 1 then
    ln ← Array_get (rows data) (rowIndex + 1);
    next ← heap w !! ln;
    Some (Date_ge (shifted_time
                     (DateFns.addMonths
                        (new_Date (offset_at (date row)) Date_parse_other (date row)) 1))
                  (time_value (date next)))
  else Some false.

(** Invariant 3 of the data model on the rows of a snapshot: each row
    is dated strictly before the next one, as [new Date] reads the
    dates. *)
Definition ascending (rs : list Row) : Prop :=
  ∀ (i : nat) r1 r2, rs !! i = Some r1 → rs !! S i = Some r2 →
    ∃ x y, time_value (date r1) = Some x ∧ time_value (date r2) = Some y ∧ x < y.


End Zone.

(** A zone that keeps the offset [tz] all year. *)
Definition fixed_offset (tz : Z) (t : Z) : Z := tz.
Definition fixed_UTC (tz : Z) (t : Z) : Z := t - tz.

(** An engine that reads nothing but the date-only form: every other
    string gives the time value NaN. *)
Definition no_other_time (s : string) : option Z := None.

(** Central European time in the year 2027: an hour east of UTC, and
    two hours from 2027-03-28 01:00 UTC to 2027-10-31 01:00 UTC.  A
    local time that the switch of the spring skips is read with the
    offset before the switch, and so is one that the switch of the
    autumn repeats. *)
Definition berlin_spring : Z := 30103260.
Definition berlin_autumn : Z := 30415740.
Definition berlin_offset (t : Z) : Z :=
  if t <? berlin_spring then 60 else if t <? berlin_autumn then 120 else 60.
Definition berlin_UTC (t : Z) : Z :=
  if t <? berlin_spring + 120 then t - 60
  else if t <? berlin_autumn + 120 then t - 120 else t - 60.

(** *** Printing and reading back a date *)

(** [addLeadingZeros(y, 4)] is four digits that read as [y]. *)
Definition pad4_ok (y : Z) : bool :=
  match String.list_ascii_of_string (DateFns.addLeadingZeros y 4) with
  | [a; b; c; d] =>
      match digit a, digit b, digit c, digit d with
      | Some a, Some b, Some c, Some d => 1000 * a + 100 * b + 10 * c + d =? y
      | _, _, _, _ => false
      end
  | _ => false
  end.

(** [addLeadingZeros(n, 2)] is two digits that read as [n]. *)
Definition pad2_ok (n : Z) : bool :=
  match String.list_ascii_of_string (DateFns.addLeadingZeros n 2) with
  | [a; b] =>
      match digit a, digit b with
      | Some a, Some b => 10 * a + b =? n
      | _, _ => false
      end
  | _ => false
  end.

(** The month after and the month before a month of a year. *)
Definition next_month (y m : Z) : Z * Z :=
  if m =? 12 then (y + 1, 1) else (y, m + 1).

Definition previous_month (y m : Z) : Z * Z :=
  if m =? 1 then (y - 1, 12) else (y, m - 1).

(** Two rows, dated 2027-01-14 and 2027-02-15. *)
Definition dated_world : World :=
  {| heap := [ {| date := "2027-01-14"; values := ∅; hidden := None |};
               {| date := "2027-02-15"; values := ∅; hidden := None |} ];
     data := {| headers := []; rows := [0%nat; 1%nat] |};
     log := [];
     files := ∅;
     prototypes := ∅;
     refused := ∅ |}.

(** Two rows, dated 2027-03-15 and 2027-04-15. *)
Definition spring_world : World :=
  {| heap := [ {| date := "2027-03-15"; values := ∅; hidden := None |};
               {| date := "2027-04-15"; values := ∅; hidden := None |} ];
     data := {| headers := []; rows := [0%nat; 1%nat] |};
     log := [];
     files := ∅;
     prototypes := ∅;
     refused := ∅ |}.

(** * Properties *)

#[local] Set Warnings "-clear-no-such-hyp".

(** ** The store *)

Lemma read_rows_cons h l ls :
  read_rows h (l :: ls) = r ← h !! l; rs ← read_rows h ls; Some (r :: rs).
Proof. reflexivity. Qed.

Lemma read_rows_length h ls rs : read_rows h ls = Some rs → length rs = length ls.
Proof. intros H. symmetry. by eapply length_mapM. Qed.

Lemma read_rows_app_l h k ls rs :
  read_rows h ls = Some rs → read_rows (h ++ k) ls = Some rs.
Proof.
  unfold read_rows. rewrite !mapM_Some. intros H.
  induction H as [|l r ls rs Hl _ IH]; constructor; [|exact IH].
  by apply lookup_app_l_Some.
Qed.

Lemma read_rows_fresh h k :
  read_rows (h ++ k) (seq (length h) (length k)) = Some k.
Proof.
  unfold read_rows. apply mapM_Some. apply Forall2_lookup. intros i.
  destruct (k !! i) as [r|] eqn:Hk.
  - assert (i < length k)%nat as Hi by (by eapply lookup_lt_Some).
    rewrite (lookup_seq_lt _ _ _ Hi). constructor.
    by rewrite lookup_app_r, Nat.add_comm, Nat.add_sub by lia.
  - apply lookup_ge_None in Hk. rewrite lookup_seq_ge by done. constructor.
Qed.

(** The rows that [map_rows f] has just built. *)
Lemma read_rows_mapped h (f : Row → Row) rs :
  read_rows (h ++ (f <$> rs)) (seq (length h) (length rs)) = Some (f <$> rs).
Proof. rewrite <- (length_fmap f rs). apply read_rows_fresh. Qed.

Lemma read_rows_snoc h ls rs l r :
  read_rows h ls = Some rs → h !! l = Some r →
  read_rows h (ls ++ [l]) = Some (rs ++ [r]).
Proof.
  unfold read_rows. rewrite !mapM_Some. intros H Hl.
  apply Forall2_app; [done|]. by repeat constructor.
Qed.

(** *** Building objects *)

Lemma with_prototypes_app ps l new1 new2 :
  with_prototypes ps l (new1 ++ new2)
  = with_prototypes (with_prototypes ps l new1) (l + length new1)%nat new2.
Proof.
  revert ps l. induction new1 as [|p new1 IH]; intros ps l; cbn.
  - by rewrite Nat.add_0_r.
  - rewrite IH. f_equal. lia.
Qed.

Lemma grow_nil w : grow w [] = w.
Proof. destruct w. unfold grow. cbn. by rewrite app_nil_r. Qed.

Lemma grow_grow w new1 new2 : grow (grow w new1) new2 = grow w (new1 ++ new2).
Proof.
  unfold grow. cbn. rewrite !fmap_app, app_assoc, with_prototypes_app.
  by rewrite length_app, !length_fmap.
Qed.

Lemma heap_extend w new : heap (extend w new) = heap w ++ new.
Proof.
  unfold extend, grow. cbn. f_equal. rewrite <- list_fmap_compose. apply list_fmap_id.
Qed.

Lemma extend_nil w : extend w [] = w.
Proof. apply grow_nil. Qed.

Lemma extend_extend w new1 new2 : extend (extend w new1) new2 = extend w (new1 ++ new2).
Proof. unfold extend. by rewrite grow_grow, fmap_app. Qed.

Lemma alloc_eq row w : alloc row w = Val (length (heap w)) (extend w [row]).
Proof. done. Qed.

(** Objects that are built with the prototype of an object literal
    leave the prototypes of the objects that were there as they were. *)
Lemma with_prototypes_literals ps (l : loc) (n : nat) (x : loc) :
  (x < l)%nat →
  with_prototypes ps l (replicate n Object_prototype) !! x = ps !! x.
Proof.
  revert ps l. induction n as [|n IH]; intros ps l Hx; [done|].
  cbn. rewrite IH by lia. apply lookup_delete_ne. lia.
Qed.

Lemma with_prototypes_before ps (l : loc) new (x : loc) :
  (x < l)%nat → with_prototypes ps l new !! x = ps !! x.
Proof.
  revert ps l. induction new as [|p new IH]; intros ps l Hx; [done|].
  cbn. rewrite IH by lia. destruct p; cbn.
  - apply lookup_delete_ne. lia.
  - apply lookup_insert_ne. lia.
Qed.

Lemma map_objects_cons f l ls w :
  map_objects f (l :: ls) w
  = match heap w !! l with
    | Some r =>
        match map_objects f ls (grow w [f r]) with
        | Val ls' w' => Val (length (heap w) :: ls') w'
        | Exn e w' => Exn e w'
        end
    | None => Exn DanglingRef w
    end.
Proof.
  unfold map_objects at 1. cbn [mapM]. fold (map_objects f ls).
  unfold mbind, M_bind, deref, alloc_object. destruct (heap w !! l); [|done].
  by destruct (f r).
Qed.

Lemma heap_grow w new : heap (grow w new) = heap w ++ new.*1.
Proof. done. Qed.

(** Mapping over the rows leaves the store as it was and adds the new
    row objects after it. *)
Lemma map_objects_spec f ls : ∀ w rs,
  read_rows (heap w) ls = Some rs →
  map_objects f ls w = Val (seq (length (heap w)) (length rs)) (grow w (f <$> rs)).
Proof.
  induction ls as [|l ls IH]; intros w rs Hrs.
  - injection Hrs as <-. cbn. by rewrite grow_nil.
  - rewrite read_rows_cons in Hrs.
    destruct (heap w !! l) as [r|] eqn:Hl; [|done]. cbn in Hrs.
    destruct (read_rows (heap w) ls) as [rs'|] eqn:Hls; [|done].
    injection Hrs as <-.
    rewrite map_objects_cons, Hl.
    rewrite (IH _ rs') by (rewrite heap_grow; by apply read_rows_app_l).
    rewrite grow_grow, heap_grow. cbn.
    by rewrite length_app, Nat.add_1_r.
Qed.

Lemma map_rows_spec f ls w rs :
  read_rows (heap w) ls = Some rs →
  map_rows f ls w = Val (seq (length (heap w)) (length rs)) (extend w (f <$> rs)).
Proof.
  intros Hrs. unfold map_rows. rewrite (map_objects_spec _ _ w rs Hrs).
  unfold extend. by rewrite <- list_fmap_compose.
Qed.

(** What a handler of the form [setData({ ..., rows: data.rows.map(f) })]
    does to a world whose rows read as [rs]. *)
Lemma run_map_objects f (k : list loc → Data) w rs :
  read_rows (heap w) (rows (data w)) = Some rs →
  run (rows' ← map_objects f (rows (data w)); setData (k rows')) w
  = set_data (grow w (f <$> rs)) (k (seq (length (heap w)) (length rs))).
Proof.
  intros Hrs. unfold run, mbind, M_bind.
  by rewrite (map_objects_spec f _ w rs Hrs).
Qed.

Lemma run_map_rows f (k : list loc → Data) w rs :
  read_rows (heap w) (rows (data w)) = Some rs →
  run (rows' ← map_rows f (rows (data w)); setData (k rows')) w
  = set_data (extend w (f <$> rs)) (k (seq (length (heap w)) (length rs))).
Proof.
  intros Hrs. unfold run, mbind, M_bind.
  by rewrite (map_rows_spec f _ w rs Hrs).
Qed.

(** ** Column operations *)

Lemma addColumn_eq w rs :
  read_rows (heap w) (rows (data w)) = Some rs →
  let newHeader := "Lab " +:+ pretty (length (headers (data w)) + 1)%nat in
  addColumn w
  = set_data (extend w (add_column_row newHeader <$> rs))
      {| headers := headers (data w) ++ [newHeader];
         rows := seq (length (heap w)) (length rs) |}.
Proof.
  intros Hrs nh. unfold addColumn.
  exact (run_map_rows (add_column_row nh)
           (λ rows', {| headers := headers (data w) ++ [nh]; rows := rows' |}) w rs Hrs).
Qed.

Lemma removeColumn_eq headerToRemove w rs :
  read_rows (heap w) (rows (data w)) = Some rs →
  removeColumn headerToRemove w
  = set_data (extend w (remove_column_row headerToRemove <$> rs))
      {| headers := filter (λ header, header ≠ headerToRemove) (headers (data w));
         rows := seq (length (heap w)) (length rs) |}.
Proof.
  intros Hrs. unfold removeColumn.
  exact (run_map_rows (remove_column_row headerToRemove)
           (λ rows', {| headers := filter (λ header, header ≠ headerToRemove) (headers (data w));
                        rows := rows' |}) w rs Hrs).
Qed.

Lemma updateHeader_rejected oldHeader newHeader w :
  newHeader ∈ headers (data w) → newHeader ≠ oldHeader →
  updateHeader oldHeader newHeader w
  = add_log w (Message "A column with this name already exists" "Validation Error" "error").
Proof.
  intros Hin Hne. unfold updateHeader.
  by rewrite (bool_decide_eq_true_2 _ Hin), (bool_decide_eq_false_2 _ Hne).
Qed.

Lemma updateHeader_accepted oldHeader newHeader w rs :
  newHeader ∉ headers (data w) ∨ newHeader = oldHeader →
  read_rows (heap w) (rows (data w)) = Some rs →
  updateHeader oldHeader newHeader w
  = set_data (grow w (rename_column_object oldHeader newHeader <$> rs))
      {| headers := rename_header oldHeader newHeader <$> headers (data w);
         rows := seq (length (heap w)) (length rs) |}.
Proof.
  intros Hok Hrs. unfold updateHeader.
  assert (bool_decide (newHeader ∈ headers (data w))
          && negb (bool_decide (newHeader = oldHeader)) = false) as ->.
  { destruct Hok as [Hnin| ->].
    - by rewrite (bool_decide_eq_false_2 _ Hnin).
    - rewrite (bool_decide_eq_true_2 (oldHeader = oldHeader)) by done.
      apply andb_false_r. }
  exact (run_map_objects (rename_column_object oldHeader newHeader)
           (λ rows', {| headers := rename_header oldHeader newHeader <$> headers (data w);
                        rows := rows' |}) w rs Hrs).
Qed.

(** The rows that [updateHeader] has built. *)
Lemma renamed_rows oldHeader newHeader (rs : list Row) :
  (rename_column_object oldHeader newHeader <$> rs).*1
  = rename_column_row oldHeader newHeader <$> rs.
Proof. by rewrite <- list_fmap_compose. Qed.






(** *** Assignment to a property *)

Lemma eqb_proto_false (k : string) : k ≠ "__proto__" → String.eqb k "__proto__" = false.
Proof. intros Hk. by apply String.eqb_neq. Qed.

(** An assignment to a key other than [__proto__], or to a key that
    the object has, stores the value under the key. *)
Lemma assigned_insert (o : gmap string value) k v :
  k ≠ "__proto__" ∨ is_Some (o !! k) → assigned o k v = (<[k := v]> o, None).
Proof.
  intros Hk. unfold assigned. destruct (o !! k) eqn:Ho; [done|].
  destruct Hk as [Hk|[? ?]]; [|done]. by rewrite eqb_proto_false.
Qed.



(** What a rename to a name other than [__proto__] makes of a row: the
    value read under the old name is stored under the new name, and
    the old key is deleted after it. *)
Lemma rename_column_object_insert oldHeader newHeader row :
  newHeader ≠ "__proto__" ∨ is_Some (values row !! newHeader) →
  rename_column_object oldHeader newHeader row
  = (with_values row (delete oldHeader
                        (<[newHeader := read_prop (values row) oldHeader]> (values row))),
     Object_prototype).
Proof.
  intros Hk. unfold rename_column_object. by rewrite assigned_insert.
Qed.

Lemma rename_column_row_insert oldHeader newHeader row :
  newHeader ≠ "__proto__" ∨ is_Some (values row !! newHeader) →
  rename_column_row oldHeader newHeader row
  = with_values row (delete oldHeader
                       (<[newHeader := read_prop (values row) oldHeader]> (values row))).
Proof.
  intros Hk. unfold rename_column_row. by rewrite rename_column_object_insert.
Qed.

Lemma view_built w (new : list (Row * prototype)) (rs : list Row) hs :
  new.*1 = rs →
  view (set_data (grow w new) {| headers := hs; rows := seq (length (heap w)) (length rs) |})
  = Some (hs, rs).
Proof.
  intros <-. unfold view, snapshot. cbn [heap data rows headers set_data grow].
  by rewrite read_rows_fresh.
Qed.

Lemma view_fresh w rs hs :
  view (set_data (extend w rs) {| headers := hs; rows := seq (length (heap w)) (length rs) |})
  = Some (hs, rs).
Proof.
  apply view_built. rewrite <- list_fmap_compose. apply list_fmap_id.
Qed.

Lemma view_mapped w (f : Row → Row) rs hs :
  view (set_data (extend w (f <$> rs))
          {| headers := hs; rows := seq (length (heap w)) (length rs) |})
  = Some (hs, f <$> rs).
Proof. rewrite <- (length_fmap f rs). apply view_fresh. Qed.

Lemma view_renamed w oldHeader newHeader rs hs :
  view (set_data (grow w (rename_column_object oldHeader newHeader <$> rs))
          {| headers := hs; rows := seq (length (heap w)) (length rs) |})
  = Some (hs, rename_column_row oldHeader newHeader <$> rs).
Proof.
  rewrite <- (length_fmap (rename_column_row oldHeader newHeader) rs).
  apply view_built, renamed_rows.
Qed.

(** Renaming to the same name: whatever the assignment does, the
    [delete] that follows it takes the key away. *)
Lemma rename_column_row_same h row :
  rename_column_row h h row = remove_column_row h row.
Proof.
  unfold rename_column_row, rename_column_object, remove_column_row, assigned.
  destruct (values row !! h) eqn:Hh; cbn.
  - by rewrite delete_insert_eq.
  - destruct (String.eqb h "__proto__"); cbn; [done|]. by rewrite delete_insert_eq.
Qed.

Lemma rename_header_same (h : string) (hs : list string) :
  rename_header h h <$> hs = hs.
Proof.
  induction hs as [|x hs IH]; [done|]. cbn. rewrite IH. f_equal.
  unfold rename_header. by case_bool_decide.
Qed.

(** Renaming a header to its own name passes the duplicate check and
    then, in every row, deletes the value it has just assigned. *)
Lemma updateHeader_same_name h w rs :
  read_rows (heap w) (rows (data w)) = Some rs →
  view (updateHeader h h w) = Some (headers (data w), remove_column_row h <$> rs).
Proof.
  intros Hrs. rewrite (updateHeader_accepted h h w rs) by auto.
  rewrite view_renamed, rename_header_same.
  do 2 f_equal. apply list_fmap_ext. intros _ row _.
  apply rename_column_row_same.
Qed.

Lemma invariant2_view w hs rs :
  view w = Some (hs, rs) →
  invariant2 w → Forall (λ row, dom (values row) =@{gset string} list_to_set hs) rs.
Proof.
  unfold view, snapshot. intros Hview (rs' & Hrs & Hall).
  rewrite Hrs in Hview. by injection Hview as <- <-.
Qed.

Lemma sample_world_invariant2 : invariant2 sample_world.
Proof.
  exists [sample_row]. split; [reflexivity|]. by repeat constructor.
Qed.




(** C1 (failing input).  Invariant 2 holds in the sample world (one
    column [A], one row with a value for [A]) and is lost by
    [updateHeader "A" "A"]: the header stays and the row's value for it
    is deleted.  It is lost as well when the header to rename does not
    exist and the new name is free: the rows gain the key of the new
    name with the value [undefined]. *)
Theorem updateHeader_breaks_invariant2 :
  invariant2 sample_world
  ∧ ¬ Forall invariant2 (trace [RenameColumn "A" "A"] sample_world)
  ∧ ¬ Forall invariant2 (trace [RenameColumn "Z" "Y"] sample_world).
Proof.
  split; [exact sample_world_invariant2|]. split.
  - intros H. apply Forall_cons_1 in H as [H _].
    apply (invariant2_view _ ["A"] (remove_column_row "A" <$> [sample_row])) in H.
    + apply Forall_cons_1 in H as [Hdom _]. cbn in Hdom.
      rewrite dom_delete_L in Hdom. set_solver.
    + exact (updateHeader_same_name "A" sample_world [sample_row] eq_refl).
  - intros H. apply Forall_cons_1 in H as [H _].
    apply (invariant2_view _ ["A"] (rename_column_row "Z" "Y" <$> [sample_row])) in H.
    + apply Forall_cons_1 in H as [Hdom _].
      rewrite rename_column_row_insert in Hdom by (by left). cbn in Hdom.
      rewrite dom_delete_L, dom_insert_L in Hdom. set_solver.
    + cbn [apply_column_op].
      rewrite (updateHeader_accepted "Z" "Y" sample_world [sample_row]);
        [|left; vm_compute; set_solver|reflexivity].
      apply view_renamed.
Qed.

(** C2.  When the new name is already a header and differs from the
    old one, [updateHeader] shows the validation error "A column with
    this name already exists" and changes neither the snapshot, nor any
    row object, nor a file. *)
Theorem updateHeader_duplicate_name oldHeader newHeader w :
  newHeader ∈ headers (data w) → newHeader ≠ oldHeader →
  let w' := updateHeader oldHeader newHeader w in
  data w' = data w ∧ heap w' = heap w ∧ files w' = files w
  ∧ log w' = log w ++ [Message "A column with this name already exists"
                               "Validation Error" "error"].
Proof.
  intros Hin Hne w'. subst w'. by rewrite updateHeader_rejected.
Qed.

Lemma updateHeader_duplicate_name_witness :
  let w' := updateHeader "A" "B" sample_world2 in
  data w' = data sample_world2 ∧ heap w' = heap sample_world2
  ∧ files w' = files sample_world2
  ∧ log w' = log sample_world2 ++ [Message "A column with this name already exists"
                                           "Validation Error" "error"].
Proof.
  apply (updateHeader_duplicate_name "A" "B" sample_world2).
  - vm_compute. set_solver.
  - discriminate.
Defined.

(** C3 (failing input).  In the sample world, [updateHeader "A" "A"]
    is accepted, and the snapshot it commits has the header [A] but no
    value for it in the row: it is not the snapshot it started from. *)
Theorem updateHeader_same_name_drops_values :
  log (updateHeader "A" "A" sample_world) = []
  ∧ view (updateHeader "A" "A" sample_world)
    = Some (["A"], [ {| date := "2027-10-14"; values := ∅; hidden := Some false |} ])
  ∧ view sample_world = Some (["A"], [sample_row])
  ∧ view (updateHeader "A" "A" sample_world) ≠ view sample_world.
Proof.
  split; [reflexivity|]. split; [by vm_compute|]. split; [reflexivity|].
  rewrite (updateHeader_same_name "A" sample_world [sample_row]) by reflexivity.
  intros H.
  apply (f_equal (λ v : option (list string * list Row),
                    match v with
                    | Some (_, [row]) => values row !! "A"
                    | _ => None
                    end)) in H.
  vm_compute in H. discriminate.
Qed.

(** ** Rows *)

Lemma filter_from_all {A} (keep : A → Z → bool) (xs : list A) : ∀ i,
  (∀ x j, i ≤ j < i + Z.of_nat (length xs) → keep x j = true) →
  filter_from keep i xs = xs.
Proof.
  induction xs as [|x xs IH]; intros i Hkeep; [done|]. cbn [filter_from].
  rewrite Hkeep by (cbn [length]; lia). f_equal. apply IH.
  intros y j Hj. apply Hkeep. cbn [length]. lia.
Qed.

(** C10.  With a row index that is negative or not below the number
    of rows, [removeRow] commits a snapshot with the same headers and
    the same rows in the same order; no row object changes and nothing
    is reported. *)
Theorem removeRow_out_of_range rowIndex w :
  rowIndex < 0 ∨ Z.of_nat (length (rows (data w))) ≤ rowIndex →
  removeRow rowIndex w = w.
Proof.
  intros Hout. unfold removeRow, run, setData, set_data, Array_filter.
  rewrite filter_from_all.
  - by destruct w as [h [hs rs] lg fs ps rf].
  - intros _ j Hj. apply negb_true_iff, Z.eqb_neq. lia.
Qed.

Lemma removeRow_out_of_range_witness :
  removeRow 1 sample_world = sample_world ∧ removeRow (-1) sample_world = sample_world.
Proof.
  split.
  - apply (removeRow_out_of_range 1 sample_world). right. cbn. lia.
  - apply (removeRow_out_of_range (-1) sample_world). left. lia.
Defined.

(** ** Dates and row operations *)

Lemma Array_get_last {A} (xs : list A) (x : A) :
  Array_get (xs ++ [x]) (Z.of_nat (length (xs ++ [x])) - 1) = Some x.
Proof.
  unfold Array_get. rewrite length_app. cbn [length].
  destruct (Z.leb_spec 0 (Z.of_nat (length xs + 1) - 1)) as [_|]; [|lia].
  replace (Z.to_nat (Z.of_nat (length xs + 1) - 1)) with (length xs + 0)%nat by lia.
  by rewrite lookup_app_r, Nat.add_0_r, Nat.sub_diag by lia.
Qed.

Lemma fromEntries_const_lookup {V} (v : V) (hs : list string) (k : string) : ∀ o,
  foldl (λ (o : gmap string V) kv, <[kv.1 := kv.2]> o) o ((λ header, (header, v)) <$> hs) !! k
  = if decide (k ∈ hs) then Some v else o !! k.
Proof.
  induction hs as [|h hs IH]; intros o; cbn [fmap list_fmap foldl].
  - by rewrite decide_False by set_solver.
  - rewrite IH. cbn [fst snd].
    destruct (decide (k ∈ hs)) as [Hin|Hnin].
    + by rewrite decide_True by set_solver.
    + destruct (decide (k = h)) as [->|Hne].
      * by rewrite lookup_insert_eq, decide_True by set_solver.
      * by rewrite lookup_insert_ne, decide_False by set_solver.
Qed.

(** The values of the seed row: [1.0] under every header, and nothing else. *)
Lemma seed_values_lookup (hs : list string) (k : string) :
  fromEntries ((λ header, (header, Num 1)) <$> hs) !! k
  = if decide (k ∈ hs) then Some (Num 1) else None.
Proof. unfold fromEntries. by rewrite fromEntries_const_lookup, lookup_empty. Qed.

Lemma data_eta (d : Data) : {| headers := headers d; rows := rows d |} = d.
Proof. by destruct d. Qed.

Section Clock.

(** The host's time zone, and what its engine makes of the strings
    that are not date-only forms. *)
Variables (tz : Z) (other : string → Date).

Lemma new_Date_date_only s y m d :
  parse_date_only s = Some (y, m, d) →
  new_Date tz other s = LocalTime (MakeDay y (m - 1) d + tz / 1440) (tz mod 1440).
Proof.
  intros H. unfold new_Date, minutesPerDay. rewrite H. f_equal.
  - by rewrite Z.div_add_l.
  - by rewrite Z.add_comm, Z_mod_plus_full.
Qed.

(** East of Greenwich (and at it) the local day is the day written in
    the string; west of it, the day before. *)
Lemma new_Date_east s y m d :
  0 ≤ tz < 1440 → parse_date_only s = Some (y, m, d) →
  new_Date tz other s = LocalTime (MakeDay y (m - 1) d) tz.
Proof.
  intros Htz H. rewrite (new_Date_date_only _ _ _ _ H).
  rewrite Z.div_small, Z.mod_small by lia. f_equal. lia.
Qed.

Lemma new_Date_west s y m d :
  -1440 ≤ tz < 0 → parse_date_only s = Some (y, m, d) →
  new_Date tz other s = LocalTime (MakeDay y (m - 1) d - 1) (tz + 1440).
Proof.
  intros Htz H. rewrite (new_Date_date_only _ _ _ _ H).
  pose proof (Z.div_mod tz 1440 ltac:(lia)) as Hdm.
  pose proof (Z.mod_pos_bound tz 1440 ltac:(lia)) as Hm.
  assert (tz / 1440 = -1) as Hq by lia.
  assert (tz mod 1440 = tz + 1440) as -> by lia.
  by rewrite Hq.
Qed.

Lemma addRow_empty w s :
  rows (data w) = [] →
  DateFns.format (new_Date tz other "2027-10-14") = inr s →
  addRow tz other w
  = set_data (extend w [ {| date := s;
                            values := fromEntries ((λ header, (header, Num 1))
                                                   <$> headers (data w));
                            hidden := Some false |} ])
      {| headers := headers (data w); rows := [length (heap w)] |}.
Proof.
  intros Hrows Hfmt. unfold addRow, run, try_catch. rewrite Hrows. cbn [length Nat.eqb].
  unfold mbind, M_bind. by rewrite Hfmt.
Qed.

Lemma addRow_nonempty w ls last lastRow s :
  rows (data w) = ls ++ [last] →
  heap w !! last = Some lastRow →
  DateFns.format (DateFns.addMonths (new_Date tz other (date lastRow)) 3) = inr s →
  addRow tz other w
  = set_data (extend w [ {| date := s; values := values lastRow; hidden := Some true |} ])
      {| headers := headers (data w); rows := rows (data w) ++ [length (heap w)] |}.
Proof.
  intros Hrows Hlast Hfmt. destruct w as [h [hs rs] lg fs ps rf].
  cbn [data rows heap headers log files] in *. subst rs.
  unfold addRow, run, try_catch. cbn [data rows heap headers].
  rewrite Array_get_last, length_app, Nat.add_1_r. cbn [Nat.eqb].
  unfold mbind, M_bind, deref. cbn [heap]. by rewrite Hlast, Hfmt.
Qed.

(** [addRow] on a table without rows, at Greenwich or east of it: one
    row dated 2027-10-14, [1.0] under every header, not hidden. *)
Theorem addRow_empty_east w :
  0 ≤ tz < 1440 → rows (data w) = [] →
  ∃ row, view (addRow tz other w) = Some (headers (data w), [row])
         ∧ date row = "2027-10-14"
         ∧ hidden row = Some false
         ∧ ∀ k, values row !! k = if decide (k ∈ headers (data w)) then Some (Num 1) else None.
Proof.
  intros Htz Hrows.
  rewrite (addRow_empty w "2027-10-14" Hrows).
  - eexists. split; [|split; [|split]].
    + apply (view_fresh w [_]).
    + reflexivity.
    + reflexivity.
    + apply seed_values_lookup.
  - by rewrite (new_Date_east _ 2027 10 14).
Qed.

(** The same west of Greenwich: the row is dated 2027-10-13. *)
Lemma addRow_empty_west w :
  -1440 ≤ tz < 0 → rows (data w) = [] →
  ∃ row, view (addRow tz other w) = Some (headers (data w), [row])
         ∧ date row = "2027-10-13".
Proof.
  intros Htz Hrows.
  rewrite (addRow_empty w "2027-10-13" Hrows).
  - eexists. split; [apply (view_fresh w [_]) | reflexivity].
  - by rewrite (new_Date_west _ 2027 10 14).
Qed.

(** [addRow] on a table with rows: the rows that exist stay, and one
    row is added after them, with the values of the last row, hidden,
    and dated by [format(addMonths(new Date(last.date), 3))]. *)
Theorem addRow_appends w ls last rs lastRow s :
  rows (data w) = ls ++ [last] →
  read_rows (heap w) ls = Some rs →
  heap w !! last = Some lastRow →
  DateFns.format (DateFns.addMonths (new_Date tz other (date lastRow)) 3) = inr s →
  view (addRow tz other w)
  = Some (headers (data w),
          rs ++ [lastRow] ++ [ {| date := s; values := values lastRow; hidden := Some true |} ]).
Proof.
  intros Hrows Hrs Hlast Hfmt.
  rewrite (addRow_nonempty w ls last lastRow s Hrows Hlast Hfmt).
  unfold view, snapshot. cbn [heap data rows headers set_data extend grow fmap list_fmap fst].
  rewrite Hrows.
  erewrite read_rows_snoc; [by rewrite <- app_assoc| |].
  - apply read_rows_app_l. by apply read_rows_snoc.
  - by rewrite lookup_app_r, Nat.sub_diag.
Qed.

Lemma incrementMonth_eq rowIndex w l row s :
  Array_get (rows (data w)) rowIndex = Some l →
  heap w !! l = Some row →
  DateFns.format (DateFns.addMonths (new_Date tz other (date row)) 1) = inr s →
  incrementMonth tz other rowIndex w
  = set_heap w (<[l := with_date row s]> (heap w)).
Proof.
  intros Hl Hrow Hfmt. unfold incrementMonth, run. rewrite Hl.
  unfold mbind, M_bind, deref, store. rewrite Hrow, Hfmt. cbn.
  rewrite Hrow. cbn. unfold set_data, set_heap. cbn. by rewrite data_eta.
Qed.

(** A month after January 31 (or after January 30, which is the local
    day west of Greenwich) is the last day of February. *)
Lemma addMonths_jan_31 :
  -1440 < tz < 1440 →
  DateFns.format (DateFns.addMonths (new_Date tz other "2027-01-31") 1) = inr "2027-02-28".
Proof.
  intros Htz. destruct (Z.lt_ge_cases tz 0).
  - rewrite (new_Date_west _ 2027 1 31) by (done || lia).
    generalize (tz + 1440). intros minute. by vm_compute.
  - rewrite (new_Date_east _ 2027 1 31) by (done || lia).
    generalize tz. intros minute. by vm_compute.
Qed.

(** C9.  [incrementMonth] on a row dated 2027-01-31 writes the date
    2027-02-28 into that row, in every time zone, and commits the same
    headers and rows; nothing is reported. *)
Theorem incrementMonth_jan_31 rowIndex w l row :
  -1440 < tz < 1440 →
  Array_get (rows (data w)) rowIndex = Some l →
  heap w !! l = Some row →
  date row = "2027-01-31" →
  let w' := incrementMonth tz other rowIndex w in
  heap w' !! l = Some (with_date row "2027-02-28")
  ∧ data w' = data w ∧ log w' = log w.
Proof.
  intros Htz Hl Hrow Hdate w'. subst w'.
  rewrite (incrementMonth_eq rowIndex w l row "2027-02-28" Hl Hrow).
  - cbn. split; [|done]. apply list_lookup_insert_eq. by eapply lookup_lt_Some.
  - rewrite Hdate. by apply addMonths_jan_31.
Qed.

End Clock.

Lemma addRow_empty_east_witness :
  ∃ row, view (addRow 120 no_other_format empty_world) = Some (headers (data empty_world), [row])
         ∧ date row = "2027-10-14"
         ∧ hidden row = Some false
         ∧ ∀ k, values row !! k
                = if decide (k ∈ headers (data empty_world)) then Some (Num 1) else None.
Proof.
  apply (addRow_empty_east 120 no_other_format empty_world); [lia | reflexivity].
Defined.

Lemma addRow_appends_witness :
  view (addRow 0 no_other_format sample_world)
  = Some (["A"],
          [] ++ [sample_row]
          ++ [ {| date := "2028-01-14"; values := values sample_row; hidden := Some true |} ]).
Proof.
  exact (addRow_appends 0 no_other_format sample_world [] 0%nat [] sample_row "2028-01-14"
           eq_refl eq_refl eq_refl eq_refl).
Defined.

Lemma incrementMonth_jan_31_witness :
  let w := {| heap := [with_date sample_row "2027-01-31"];
              data := {| headers := ["A"]; rows := [0%nat] |};
              log := []; files := ∅; prototypes := ∅; refused := ∅ |} in
  let w' := incrementMonth utc_minus_5 no_other_format 0 w in
  heap w' !! 0%nat = Some (with_date (with_date sample_row "2027-01-31") "2027-02-28")
  ∧ data w' = data w ∧ log w' = log w.
Proof.
  intros w.
  apply (incrementMonth_jan_31 utc_minus_5 no_other_format 0 w 0%nat
           (with_date sample_row "2027-01-31")).
  - unfold utc_minus_5. lia.
  - reflexivity.
  - reflexivity.
  - reflexivity.
Defined.

(** C7 (failing input).  On a computer set to UTC-05:00, [addRow] on
    the table with the column [A] and no row commits one row dated
    2027-10-13, not 2027-10-14: [new Date("2027-10-14")] is midnight
    UTC, which [format] prints in local time, where it is still the
    evening of the 13th.  The values and the flag are as claimed. *)
Theorem addRow_empty_dated_a_day_early other :
  view (addRow utc_minus_5 other empty_world)
  = Some (["A"], [ {| date := "2027-10-13";
                      values := {[ "A" := Num 1 ]};
                      hidden := Some false |} ]).
Proof. by vm_compute. Qed.

(** C8 (failing input).  On a computer set to UTC-05:00, [addRow] on
    the table whose only row is dated 2027-10-14 adds a row dated
    2028-01-13, a day short of three months after it (2028-01-14).  The
    new row has the values of the last row and is hidden, and the
    first row is as it was. *)
Theorem addRow_dated_a_day_short other :
  view (addRow utc_minus_5 other sample_world)
  = Some (["A"], [ sample_row;
                   {| date := "2028-01-13";
                      values := {[ "A" := Num 1 ]};
                      hidden := Some true |} ]).
Proof. by vm_compute. Qed.

(** ** The previous snapshot *)

(** C6 (failing input).  [previous] is the snapshot of the sample
    world: the column [A] and one row, with [1] under [A], not hidden,
    dated 2027-10-14.  After [toggleRowVisibility(0)], after
    [updateValue(0, "A", "7")], after [incrementMonth(0)] and after
    [decrementMonth(0)], the row of [previous] itself reads hidden, [7],
    2027-11-14 and 2027-09-14: the handler has written into the row
    object that the previous snapshot holds. *)
Theorem handlers_write_into_previous_snapshot :
  let previous := data sample_world in
  snapshot (heap sample_world) previous = Some (["A"], [sample_row])
  ∧ snapshot (heap (toggleRowVisibility 0 sample_world)) previous
    = Some (["A"], [with_hidden sample_row (Some true)])
  ∧ snapshot (heap (updateValue parse_seven 0 "A" "7" sample_world)) previous
    = Some (["A"], [with_values sample_row {[ "A" := Num 7 ]}])
  ∧ snapshot (heap (incrementMonth 0 no_other_format 0 sample_world)) previous
    = Some (["A"], [with_date sample_row "2027-11-14"])
  ∧ snapshot (heap (decrementMonth 0 no_other_format 0 sample_world)) previous
    = Some (["A"], [with_date sample_row "2027-09-14"])
  ∧ snapshot (heap (toggleRowVisibility 0 sample_world)) previous
    ≠ snapshot (heap sample_world) previous.
Proof.
  cbn zeta. repeat split; by vm_compute.
Qed.

(** ** Preparing the data for the file *)

Lemma snapshot_app_l h k d v : snapshot h d = Some v → snapshot (h ++ k) d = Some v.
Proof.
  unfold snapshot. destruct (read_rows h (rows d)) as [rs|] eqn:Hrs; [|done].
  intros Hv. by rewrite (read_rows_app_l h k _ rs Hrs).
Qed.

Lemma prepareData_eq w rs :
  read_rows (heap w) (rows (data w)) = Some rs →
  prepareData (data w) w
  = Val {| headers := headers (data w); rows := seq (length (heap w)) (length rs) |}
        (extend w (prepare_row <$> rs)).
Proof.
  intros Hrs. unfold prepareData, mbind, M_bind.
  by rewrite (map_rows_spec prepare_row _ w rs Hrs).
Qed.

Lemma prepare_row_prepared_from row : prepared_from row (prepare_row row).
Proof.
  split; [done|]. split; [done|]. intros k. cbn. rewrite lookup_fmap.
  by destruct (values row !! k).
Qed.

(** C5 (amended).  [prepareData] returns a copy with the same headers
    whose rows have the dates, flags and keys of the rows of the
    snapshot, with [0] in place of every value of which [isNaN] holds
    and every other value as it was; the snapshot itself reads as
    before and the component's state, log and files are untouched. *)
Theorem prepareData_spec w rs :
  read_rows (heap w) (rows (data w)) = Some rs →
  ∃ prepared w',
    prepareData (data w) w = Val prepared w'
    ∧ headers prepared = headers (data w)
    ∧ (∃ rs', snapshot (heap w') prepared = Some (headers (data w), rs')
              ∧ Forall2 prepared_from rs rs')
    ∧ snapshot (heap w') (data w) = Some (headers (data w), rs)
    ∧ data w' = data w ∧ log w' = log w ∧ files w' = files w.
Proof.
  intros Hrs. eexists _, _. split; [exact (prepareData_eq w rs Hrs)|].
  split; [done|]. split; [|split; [|done]].
  - exists (prepare_row <$> rs). split.
    + unfold snapshot. cbn [rows headers]. rewrite heap_extend.
      by rewrite read_rows_mapped.
    + apply Forall2_fmap_r, Forall_Forall2_diag, Forall_forall.
      intros row _. apply prepare_row_prepared_from.
  - rewrite heap_extend. apply snapshot_app_l. unfold snapshot. by rewrite Hrs.
Qed.

Lemma prepareData_spec_witness :
  ∃ prepared w',
    prepareData (data nan_world) nan_world = Val prepared w'
    ∧ headers prepared = headers (data nan_world)
    ∧ (∃ rs', snapshot (heap w') prepared = Some (headers (data nan_world), rs')
              ∧ Forall2 prepared_from [nan_row] rs')
    ∧ snapshot (heap w') (data nan_world) = Some (headers (data nan_world), [nan_row])
    ∧ data w' = data nan_world ∧ log w' = log nan_world ∧ files w' = files nan_world.
Proof. exact (prepareData_spec nan_world [nan_row] eq_refl). Defined.

(** C5 (counterexample).  The cell of the sample row holds
    [Infinity], which is not finite; in the copy that [prepareData]
    returns the cell still holds [Infinity], not [0]. *)
Lemma prepareData_keeps_infinity :
  isFinite (Num infinity) = false
  ∧ values infinity_row !! "A" = Some (Num infinity)
  ∧ ∃ prepared w',
      prepareData (data infinity_world) infinity_world = Val prepared w'
      ∧ snapshot (heap w') prepared = Some (["A"], [infinity_row])
      ∧ Num infinity ≠ Num 0.
Proof.
  split; [reflexivity|]. split; [reflexivity|].
  eexists _, _. split; [by vm_compute|]. split; [by vm_compute|].
  intros H. apply (f_equal isFinite) in H. by vm_compute in H.
Qed.

(** ** The saved file and the schema *)

Lemma mapM_cons {A B} (f : A → M B) x xs w :
  mapM f (x :: xs) w
  = match f x w with
    | Val y w1 =>
        match mapM f xs w1 with
        | Val ys w2 => Val (y :: ys) w2
        | Exn e w2 => Exn e w2
        end
    | Exn e w1 => Exn e w1
    end.
Proof. reflexivity. Qed.


Lemma mapM_alloc_spec rs : ∀ w,
  mapM alloc rs w
  = Val (seq (length (heap w)) (length rs)) (extend w rs).
Proof.
  induction rs as [|r rs IH]; intros w.
  - cbn. by rewrite extend_nil.
  - rewrite mapM_cons, alloc_eq, IH, extend_extend, heap_extend.
    cbn. by rewrite length_app, Nat.add_1_r.
Qed.






Section SaveLoad.

(** The host's time zone, and what its engine makes of the strings
    that are not date-only forms: the schema asks for a date string
    that [new Date] can read. *)
Variables (tz : Z) (other : string → Date).






(** ** Saving, then loading *)

Lemma bind_eq {A B} (m : M A) (f : A → M B) w :
  (m ≫= f) w = match m w with
               | Val a w' => f a w'
               | Exn e w' => Exn e w'
               end.
Proof. reflexivity. Qed.


(** The copy that [prepareData] has just made reads as the prepared rows. *)
Lemma read_rows_prepared w rs :
  read_rows (heap (extend w (prepare_row <$> rs))) (seq (length (heap w)) (length rs))
  = Some (prepare_row <$> rs).
Proof. rewrite heap_extend. apply read_rows_mapped. Qed.



Lemma applyLoadedData_eq loaded w rs :
  read_rows (heap w) (rows loaded) = Some rs →
  applyLoadedData loaded w
  = Val () (set_data (extend w (normalize_row <$> rs))
              {| headers := headers loaded; rows := seq (length (heap w)) (length rs) |}).
Proof.
  intros Hrs. unfold applyLoadedData.
  by rewrite bind_eq, (map_rows_spec normalize_row _ w rs Hrs).
Qed.




End SaveLoad.


(** C4 (counterexample).  The cell of the sample row holds the
    negative zero, which [parseFloat("-0")] gives: a finite number
    that is not below zero, in a row with a date that the schema
    accepts.  The file is written and loaded without an error, but
    [JSON.stringify] writes the cell as [0], so that the loaded
    snapshot holds [0] where [prepareData] followed by
    [applyLoadedData] holds the negative zero: the two are not equal. *)
Lemma save_then_load_negative_zero :
  let w := negative_zero_world in
  let w' := loadDataFromFile 0 no_other_format (Some "data.json")
              (saveDataToFile (Some "data.json") w) in
  isFinite (Num (-0)) = true ∧ PrimFloat.ltb (-0) 0 = false
  ∧ date_accepted 0 no_other_format (date negative_zero_row) = true
  ∧ log w' = [Message "File saved successfully" "Success" "info"]
  ∧ view w' = Some (["A"], [with_values negative_zero_row {[ "A" := Num 0 ]}])
  ∧ view (prepare_then_normalize w) = Some (["A"], [negative_zero_row])
  ∧ view w' ≠ view (prepare_then_normalize w).
Proof.
  cbn zeta.
  assert (view (loadDataFromFile 0 no_other_format (Some "data.json")
                  (saveDataToFile (Some "data.json") negative_zero_world))
          = Some (["A"], [with_values negative_zero_row {[ "A" := Num 0 ]}])) as Hload
    by (by vm_compute).
  assert (view (prepare_then_normalize negative_zero_world)
          = Some (["A"], [negative_zero_row])) as Hprep by (by vm_compute).
  split; [reflexivity|]. split; [reflexivity|]. split; [reflexivity|].
  split; [by vm_compute|]. split; [exact Hload|]. split; [exact Hprep|].
  rewrite Hload, Hprep. intros H.
  apply (f_equal (λ v : option (list string * list Row),
                    match v with
                    | Some (_, [row]) =>
                        match values row !! "A" with
                        | Some (Num f) => Some (classify f)
                        | _ => None
                        end
                    | _ => None
                    end)) in H.
  vm_compute in H. discriminate.
Qed.

(** ** Handlers that leave the previous snapshot alone *)

Lemma keeps_snapshots_extends handler :
  (∀ w, ∃ k, heap (handler w) = heap w ++ k) → keeps_snapshots handler.
Proof.
  intros Hext w d v Hv. destruct (Hext w) as [k ->]. by apply snapshot_app_l.
Qed.

Lemma map_objects_extends f ls : ∀ w, ∃ k, heap (world_of (map_objects f ls w)) = heap w ++ k.
Proof.
  induction ls as [|l ls IH]; intros w.
  - exists []. cbn. by rewrite app_nil_r.
  - rewrite map_objects_cons. destruct (heap w !! l) as [r|].
    + destruct (IH (grow w [f r])) as [k Hk].
      exists ([(f r).1] ++ k). rewrite app_assoc.
      by destruct (map_objects f ls (grow w [f r])).
    + exists []. cbn. by rewrite app_nil_r.
Qed.

Lemma run_map_objects_extends f (k : list loc → Data) w :
  ∃ new, heap (run (rows' ← map_objects f (rows (data w)); setData (k rows')) w) = heap w ++ new.
Proof.
  destruct (map_objects_extends f (rows (data w)) w) as [new Hnew]. exists new.
  unfold run. rewrite bind_eq. by destruct (map_objects f (rows (data w)) w).
Qed.

Lemma run_map_rows_extends f (k : list loc → Data) w :
  ∃ new, heap (run (rows' ← map_rows f (rows (data w)); setData (k rows')) w) = heap w ++ new.
Proof. apply run_map_objects_extends. Qed.

Lemma addColumn_keeps_snapshots : keeps_snapshots addColumn.
Proof. apply keeps_snapshots_extends. intros w. apply run_map_rows_extends. Qed.

Lemma removeColumn_keeps_snapshots header : keeps_snapshots (removeColumn header).
Proof. apply keeps_snapshots_extends. intros w. apply run_map_rows_extends. Qed.

Lemma updateHeader_keeps_snapshots oldHeader newHeader :
  keeps_snapshots (updateHeader oldHeader newHeader).
Proof.
  apply keeps_snapshots_extends. intros w. unfold updateHeader.
  destruct (bool_decide (newHeader ∈ headers (data w))
            && negb (bool_decide (newHeader = oldHeader))).
  - exists []. cbn. by rewrite app_nil_r.
  - apply run_map_objects_extends.
Qed.

Lemma removeRow_keeps_snapshots rowIndex : keeps_snapshots (removeRow rowIndex).
Proof.
  apply keeps_snapshots_extends. intros w. exists []. cbn. by rewrite app_nil_r.
Qed.

Lemma addRow_keeps_snapshots tz other : keeps_snapshots (addRow tz other).
Proof.
  apply keeps_snapshots_extends. intros w. unfold addRow, run, try_catch.
  destruct (length (rows (data w)) =? 0)%nat.
  - rewrite bind_eq.
    destruct (DateFns.format (new_Date tz other "2027-10-14")) as [e|s]; cbn.
    + exists []. by rewrite app_nil_r.
    + by eexists.
  - destruct (Array_get (rows (data w)) (Z.of_nat (length (rows (data w))) - 1)) as [last|]; cbn.
    + rewrite bind_eq. unfold deref at 1.
      destruct (heap w !! last) as [lastRow|]; cbn.
      * rewrite bind_eq.
        destruct (DateFns.format (DateFns.addMonths (new_Date tz other (date lastRow)) 3))
          as [e|s]; cbn.
        -- exists []. by rewrite app_nil_r.
        -- by eexists.
      * exists []. by rewrite app_nil_r.
    + exists []. by rewrite app_nil_r.
Qed.

(** Saving the table whose value is [Infinity], then loading the file:
    the file holds [null] in place of the value, the schema refuses it,
    the error is shown and the component keeps the snapshot it had. *)
Lemma infinity_is_not_loaded :
  let w := saveDataToFile (Some "data.json") infinity_world in
  let w' := loadDataFromFile 0 no_other_format (Some "data.json") w in
  files w !! "data.json"
  = Some (Document (JObject [("headers", JArray [JString "A"]);
                             ("rows", JArray [JObject [("date", JString "2027-10-14");
                                                       ("values", JObject [("A", JNull)]);
                                                       ("hidden", JBool false)]])]))
  ∧ data w' = data w
  ∧ log w' = log w ++ [Message ("Invalid data format:" +:+ newline
                                +:+ "rows.0.values.A: Expected number")
                               "Validation Error" "error"].
Proof. cbn zeta. repeat split; by vm_compute. Qed.

(** [addColumn], [removeColumn], [updateHeader], [removeRow] and
    [addRow] build new row objects and never write into one that
    exists: a snapshot taken before the call reads the same after it. *)
Theorem structural_handlers_keep_previous_snapshot tz other header oldHeader newHeader rowIndex
    w previous v :
  snapshot (heap w) previous = Some v →
  snapshot (heap (addColumn w)) previous = Some v
  ∧ snapshot (heap (removeColumn header w)) previous = Some v
  ∧ snapshot (heap (updateHeader oldHeader newHeader w)) previous = Some v
  ∧ snapshot (heap (removeRow rowIndex w)) previous = Some v
  ∧ snapshot (heap (addRow tz other w)) previous = Some v.
Proof.
  intros Hv. repeat split.
  - by apply addColumn_keeps_snapshots.
  - by apply removeColumn_keeps_snapshots.
  - by apply updateHeader_keeps_snapshots.
  - by apply removeRow_keeps_snapshots.
  - by apply addRow_keeps_snapshots.
Qed.

Lemma structural_handlers_keep_previous_snapshot_witness :
  let previous := data sample_world in
  let v := (["A"], [sample_row]) in
  snapshot (heap (addColumn sample_world)) previous = Some v
  ∧ snapshot (heap (removeColumn "A" sample_world)) previous = Some v
  ∧ snapshot (heap (updateHeader "A" "B" sample_world)) previous = Some v
  ∧ snapshot (heap (removeRow 0 sample_world)) previous = Some v
  ∧ snapshot (heap (addRow 0 no_other_format sample_world)) previous = Some v.
Proof.
  exact (structural_handlers_keep_previous_snapshot 0 no_other_format "A" "A" "B" 0
           sample_world (data sample_world) (["A"], [sample_row]) eq_refl).
Defined.

(** ** The handlers at work on the sample tables *)

Example addColumn_sample :
  view (addColumn sample_world)
  = Some (["A"; "Lab 2"],
          [with_values sample_row {[ "A" := Num 1; "Lab 2" := Num 1 ]}]).
Proof. by vm_compute. Qed.

Example removeColumn_sample :
  view (removeColumn "A" sample_world2)
  = Some (["B"], [with_values sample_row {[ "B" := Num 2 ]}]).
Proof. by vm_compute. Qed.

Example updateHeader_sample :
  view (updateHeader "A" "C" sample_world2)
  = Some (["C"; "B"], [with_values sample_row {[ "C" := Num 1; "B" := Num 2 ]}]).
Proof. by vm_compute. Qed.

Example removeRow_sample : view (removeRow 0 sample_world) = Some (["A"], []).
Proof. by vm_compute. Qed.

Example updateValue_out_of_range :
  updateValue parse_seven 3 "A" "7" sample_world = add_log sample_world (Uncaught TypeError).
Proof. by vm_compute. Qed.

Example addRow_unreadable_date :
  let w := {| heap := [with_date sample_row "soon"];
              data := {| headers := ["A"]; rows := [0%nat] |};
              log := []; files := ∅; prototypes := ∅; refused := ∅ |} in
  addRow 0 no_other_format w
  = {| heap := heap w; data := data w;
       log := [ConsoleError "Error adding row:" RangeError;
               Message "Error adding row: Invalid time value" "Error" "error"];
       files := ∅; prototypes := ∅; refused := ∅ |}.
Proof. by vm_compute. Qed.

Example addMonths_samples :
  DateFns.format (DateFns.addMonths (new_Date 0 no_other_format "2027-11-30") 3)
  = inr "2028-02-29"
  ∧ DateFns.format (DateFns.subMonths (new_Date 0 no_other_format "2027-01-15") 1)
    = inr "2026-12-15"
  ∧ DateFns.format (DateFns.subMonths (new_Date 0 no_other_format "2027-03-31") 1)
    = inr "2027-02-28".
Proof. by vm_compute. Qed.

Example saved_file_sample :
  files (saveDataToFile (Some "data.json") nan_world) !! "data.json"
  = Some (Document (JObject [("headers", JArray [JString "A"]);
                             ("rows", JArray [JObject [("date", JString "2027-10-14");
                                                       ("values", JObject [("A", JNumber 0)])]])])).
Proof. by vm_compute. Qed.

(** A rename to [__proto__] stores nothing: the number that is
    assigned is no object, and the setter of [Object.prototype]
    ignores it; the old key is deleted all the same. *)
Example updateHeader_to_proto :
  view (updateHeader "A" "__proto__" sample_world)
  = Some (["__proto__"], [with_values sample_row ∅]).
Proof. by vm_compute. Qed.

(** A rename of a name that the rows do not have, but
    [Object.prototype] has, stores the function that is inherited
    under the new name; and a rename of that column to [__proto__]
    makes the function the prototype of the new [values] object,
    which then refuses an assignment to [name]. *)
Example updateHeader_from_inherited :
  let w := updateHeader "toString" "T" sample_world in
  let w' := updateHeader "T" "__proto__" w in
  view w = Some (["A"], [with_values sample_row {[ "A" := Num 1; "T" := Inherited "toString" ]}])
  ∧ view w' = Some (["A"], [sample_row])
  ∧ prototypes w' = {[ 2%nat := "toString" ]}
  ∧ log (updateValue parse_seven 0 "name" "7" w') = [Uncaught TypeError]
  ∧ view (updateValue parse_seven 0 "name" "7" w') = view w'.
Proof. cbn zeta. repeat split; by vm_compute. Qed.

(** * More of the mutation engine *)

(** ** Removing a row *)

Lemma view_inv w hs rs :
  view w = Some (hs, rs) → headers (data w) = hs ∧ read_rows (heap w) (rows (data w)) = Some rs.
Proof.
  unfold view, snapshot. destruct (read_rows (heap w) (rows (data w))) as [rs'|]; [|done].
  by intros [= <- <-].
Qed.

Lemma view_intro w rs :
  read_rows (heap w) (rows (data w)) = Some rs → view w = Some (headers (data w), rs).
Proof. unfold view, snapshot. by intros ->. Qed.

Lemma filter_from_delete {A} (xs : list A) : ∀ i k,
  i ≤ k < i + Z.of_nat (length xs) →
  filter_from (λ _ j, negb (j =? k)) i xs = delete (Z.to_nat (k - i)) xs.
Proof.
  induction xs as [|x xs IH]; intros i k Hk; cbn [length] in Hk; [lia|].
  cbn [filter_from]. destruct (Z.eqb_spec i k) as [->|Hne]; cbn [negb].
  - rewrite Z.sub_diag. cbn. apply filter_from_all.
    intros _ j Hj. apply negb_true_iff, Z.eqb_neq. lia.
  - rewrite IH by lia.
    replace (Z.to_nat (k - i)) with (S (Z.to_nat (k - (i + 1)))) by lia. done.
Qed.

Lemma read_rows_delete h ls rs n :
  read_rows h ls = Some rs → read_rows h (delete n ls) = Some (delete n rs).
Proof.
  unfold read_rows. rewrite !mapM_Some. apply Forall2_delete.
Qed.

(** [removeRow] with an index of the table takes exactly that row out:
    the rows before and after it stay, in their order, no row object
    changes and nothing is reported. *)
Theorem removeRow_in_range rowIndex w hs rs :
  view w = Some (hs, rs) →
  0 ≤ rowIndex < Z.of_nat (length rs) →
  let w' := removeRow rowIndex w in
  view w' = Some (hs, delete (Z.to_nat rowIndex) rs)
  ∧ heap w' = heap w ∧ log w' = log w ∧ files w' = files w.
Proof.
  intros Hview Hi w'. subst w'. apply view_inv in Hview as [<- Hrs].
  unfold removeRow, run, setData, set_data, Array_filter.
  rewrite filter_from_delete by (rewrite <- (read_rows_length _ _ _ Hrs); lia).
  rewrite Z.sub_0_r. split; [|done].
  unfold view, snapshot. cbn [heap data rows headers].
  by rewrite (read_rows_delete _ _ _ _ Hrs).
Qed.

Lemma removeRow_in_range_witness :
  let w' := removeRow 0 sample_world in
  view w' = Some (["A"], delete (Z.to_nat 0) [sample_row])
  ∧ heap w' = heap sample_world ∧ log w' = log sample_world
  ∧ files w' = files sample_world.
Proof.
  apply (removeRow_in_range 0 sample_world ["A"] [sample_row]); [reflexivity | cbn; lia].
Defined.

(** ** Columns: no-ops and round trips *)

Lemma with_values_id row : with_values row (values row) = row.
Proof. by destruct row. Qed.

Lemma filter_ne_id (h : string) (hs : list string) :
  h ∉ hs → filter (λ header, header ≠ h) hs = hs.
Proof.
  intros Hh. induction hs as [|x hs IH]; [done|].
  rewrite filter_cons_True by set_solver. f_equal. apply IH. set_solver.
Qed.

Lemma invariant2_key_absent (hs : list string) (h : string) row :
  dom (values row) =@{gset string} list_to_set hs → h ∉ hs → values row !! h = None.
Proof.
  intros Hdom Hh. apply not_elem_of_dom. rewrite Hdom. set_solver.
Qed.


Lemma fmap_id_on {A} (P : A → Prop) (f : A → A) (l : list A) :
  Forall P l → (∀ x, P x → f x = x) → f <$> l = l.
Proof.
  intros Hall Hf. induction Hall as [|x l Hx _ IH]; [done|].
  cbn. by rewrite Hf, IH.
Qed.

(** Removing a header that the table does not have changes nothing in
    the snapshot (on a table that satisfies invariant 2). *)
Theorem removeColumn_missing_header header w :
  invariant2 w → header ∉ headers (data w) →
  view (removeColumn header w) = view w ∧ log (removeColumn header w) = log w.
Proof.
  intros (rs & Hrs & Hall) Hh. rewrite (removeColumn_eq header w rs Hrs).
  split; [|done]. rewrite view_mapped, (view_intro w rs Hrs), filter_ne_id by done.
  do 2 f_equal. eapply fmap_id_on; [exact Hall|]. intros row Hrow.
  unfold remove_column_row.
  rewrite delete_id by exact (invariant2_key_absent _ _ _ Hrow Hh). apply with_values_id.
Qed.

Lemma removeColumn_missing_header_witness :
  view (removeColumn "Z" sample_world) = view sample_world
  ∧ log (removeColumn "Z" sample_world) = log sample_world.
Proof.
  apply (removeColumn_missing_header "Z" sample_world).
  - exists [sample_row]. split; [reflexivity|]. by repeat constructor.
  - vm_compute. set_solver.
Defined.

(** [addColumn] followed by [removeColumn] of the header it has made
    gives back the snapshot, when the name it makes is not a header
    already (and the table satisfies invariant 2). *)
Theorem addColumn_then_removeColumn w :
  invariant2 w →
  let newHeader := "Lab " +:+ pretty (length (headers (data w)) + 1)%nat in
  newHeader ∉ headers (data w) →
  view (removeColumn newHeader (addColumn w)) = view w.
Proof.
  intros (rs & Hrs & Hall) newHeader Hfresh.
  rewrite (addColumn_eq w rs Hrs). cbn zeta. fold newHeader.
  erewrite removeColumn_eq;
    [|cbn [heap data rows set_data]; rewrite heap_extend; apply read_rows_mapped].
  rewrite view_mapped, (view_intro w rs Hrs). cbn [data headers set_data].
  rewrite filter_app, filter_ne_id, filter_cons_False, filter_nil, app_nil_r by auto.
  do 2 f_equal. rewrite <- list_fmap_compose.
  eapply fmap_id_on; [exact Hall|]. intros row Hrow.
  unfold remove_column_row, add_column_row. cbn.
  rewrite delete_insert_eq, delete_id by exact (invariant2_key_absent _ _ _ Hrow Hfresh).
  by destruct row.
Qed.

Lemma addColumn_then_removeColumn_witness :
  view (removeColumn ("Lab " +:+ pretty (length (headers (data sample_world)) + 1)%nat)
          (addColumn sample_world))
  = view sample_world.
Proof.
  apply (addColumn_then_removeColumn sample_world).
  - exists [sample_row]. split; [reflexivity|]. by repeat constructor.
  - vm_compute. set_solver.
Defined.

(** ** Renaming a column *)







(** ** Invariant 1: no header twice *)

Lemma map_objects_exn_data f ls : ∀ w e w',
  map_objects f ls w = Exn e w' → data w' = data w.
Proof.
  induction ls as [|l ls IH]; intros w e w' Hm; [done|].
  rewrite map_objects_cons in Hm. destruct (heap w !! l) as [r|].
  - destruct (map_objects f ls (grow w [f r])) as [?|e' w''] eqn:Hm'; [done|].
    injection Hm as ? ?; subst. by rewrite (IH _ _ _ Hm').
  - by injection Hm as ? ?; subst.
Qed.

(** The snapshot that a handler of the form
    [setData({ headers: hs, rows: data.rows.map(f) })] commits. *)
Lemma run_map_objects_headers f (k : list loc → Data) w :
  data (run (rows' ← map_objects f (rows (data w)); setData (k rows')) w) = data w
  ∨ ∃ rows', data (run (rows' ← map_objects f (rows (data w)); setData (k rows')) w) = k rows'.
Proof.
  unfold run. rewrite bind_eq.
  destruct (map_objects f (rows (data w)) w) as [rows' w'|e w'] eqn:Hm.
  - right. by exists rows'.
  - left. cbn. exact (map_objects_exn_data f _ w e w' Hm).
Qed.

Lemma run_map_rows_headers f (k : list loc → Data) w :
  data (run (rows' ← map_rows f (rows (data w)); setData (k rows')) w) = data w
  ∨ ∃ rows', data (run (rows' ← map_rows f (rows (data w)); setData (k rows')) w) = k rows'.
Proof. apply run_map_objects_headers. Qed.

Lemma NoDup_rename_header (oldHeader newHeader : string) (hs : list string) :
  newHeader ∉ hs ∨ newHeader = oldHeader →
  NoDup hs → NoDup (rename_header oldHeader newHeader <$> hs).
Proof.
  intros [Hnew| ->] Hnd.
  - induction Hnd as [|x hs Hx Hnd IH]; [constructor|].
    cbn. constructor; [|apply IH; set_solver].
    intros Hin. apply list_elem_of_fmap in Hin as (y & Hxy & Hy).
    unfold rename_header in Hxy. repeat case_bool_decide; subst; set_solver.
  - by rewrite rename_header_same.
Qed.

(** [removeColumn] and [updateHeader], whatever their arguments, keep
    the headers free of duplicates. *)
Theorem column_ops_keep_headers_distinct header oldHeader newHeader w :
  NoDup (headers (data w)) →
  NoDup (headers (data (removeColumn header w)))
  ∧ NoDup (headers (data (updateHeader oldHeader newHeader w))).
Proof.
  intros Hnd. split.
  - unfold removeColumn.
    destruct (run_map_rows_headers (remove_column_row header)
                (λ rows', {| headers := filter (λ h, h ≠ header) (headers (data w));
                             rows := rows' |}) w) as [->|[rows' ->]]; [done|].
    by apply NoDup_filter.
  - unfold updateHeader.
    destruct (bool_decide (newHeader ∈ headers (data w))
              && negb (bool_decide (newHeader = oldHeader))) eqn:Hguard; [done|].
    destruct (run_map_objects_headers (rename_column_object oldHeader newHeader)
                (λ rows', {| headers := rename_header oldHeader newHeader <$> headers (data w);
                             rows := rows' |}) w) as [->|[rows' ->]]; [done|].
    apply NoDup_rename_header; [|done].
    apply andb_false_iff in Hguard as [Hin|Heq].
    + left. by apply bool_decide_eq_false_1 in Hin.
    + right. apply negb_false_iff in Heq. by apply bool_decide_eq_true_1 in Heq.
Qed.

Lemma column_ops_keep_headers_distinct_witness :
  NoDup (headers (data (removeColumn "A" sample_world2)))
  ∧ NoDup (headers (data (updateHeader "A" "C" sample_world2))).
Proof.
  apply (column_ops_keep_headers_distinct "A" "A" "C" sample_world2).
  vm_compute. repeat constructor; set_solver.
Defined.

(** [addColumn] keeps the headers free of duplicates exactly when the
    name it makes, ["Lab "] and the number of headers plus one, is not
    a header already: it does not look. *)
Theorem addColumn_headers_distinct w :
  well_formed w → NoDup (headers (data w)) →
  NoDup (headers (data (addColumn w)))
  ↔ "Lab " +:+ pretty (length (headers (data w)) + 1)%nat ∉ headers (data w).
Proof.
  intros [rs Hrs] Hnd. rewrite (addColumn_eq w rs Hrs). cbn.
  rewrite NoDup_app. split.
  - intros (_ & Hdisj & _) Hin. apply (Hdisj _ Hin). set_solver.
  - intros Hfresh. split; [done|]. split; [|apply NoDup_singleton].
    intros x Hx Hx'. apply list_elem_of_singleton in Hx'. by subst.
Qed.

Lemma addColumn_headers_distinct_witness :
  NoDup (headers (data (addColumn sample_world)))
  ↔ "Lab " +:+ pretty (length (headers (data sample_world)) + 1)%nat
    ∉ headers (data sample_world).
Proof.
  apply (addColumn_headers_distinct sample_world).
  - by exists [sample_row].
  - vm_compute. repeat constructor; set_solver.
Defined.

(** ** The handlers that write into a row *)

Lemma Array_get_out_of_range {A} (xs : list A) (i : Z) :
  i < 0 ∨ Z.of_nat (length xs) ≤ i → Array_get xs i = None.
Proof.
  intros Hi. unfold Array_get. destruct (Z.leb_spec 0 i); [|done].
  apply lookup_ge_None. lia.
Qed.

Lemma Array_get_elem_of {A} (xs : list A) (i : Z) (x : A) :
  Array_get xs i = Some x → x ∈ xs.
Proof.
  unfold Array_get. destruct (0 <=? i); [|done]. apply list_elem_of_lookup_2.
Qed.

(** With a row index outside the table, [toggleRowVisibility],
    [updateValue], [incrementMonth] and [decrementMonth] end in an
    uncaught [TypeError] (they read a property of [undefined]) before
    they have written anything: no row object, no state and no file
    changes. *)
Theorem row_writers_out_of_range parseFloat tz other rowIndex header value w :
  rowIndex < 0 ∨ Z.of_nat (length (rows (data w))) ≤ rowIndex →
  toggleRowVisibility rowIndex w = add_log w (Uncaught TypeError)
  ∧ updateValue parseFloat rowIndex header value w = add_log w (Uncaught TypeError)
  ∧ incrementMonth tz other rowIndex w = add_log w (Uncaught TypeError)
  ∧ decrementMonth tz other rowIndex w = add_log w (Uncaught TypeError).
Proof.
  intros Hi. apply Array_get_out_of_range in Hi.
  unfold toggleRowVisibility, updateValue, incrementMonth, decrementMonth.
  by rewrite Hi.
Qed.

Lemma row_writers_out_of_range_witness :
  toggleRowVisibility 5 sample_world = add_log sample_world (Uncaught TypeError)
  ∧ updateValue parse_seven 5 "A" "7" sample_world = add_log sample_world (Uncaught TypeError)
  ∧ incrementMonth 0 no_other_format 5 sample_world = add_log sample_world (Uncaught TypeError)
  ∧ decrementMonth 0 no_other_format 5 sample_world = add_log sample_world (Uncaught TypeError).
Proof.
  apply (row_writers_out_of_range parse_seven 0 no_other_format 5 "A" "7" sample_world).
  right. cbn. lia.
Defined.

Lemma read_rows_insert (P : Row → Prop) (h : list Row) (l : loc) r r' ls : ∀ rs,
  h !! l = Some r → (P r → P r') →
  read_rows h ls = Some rs → Forall P rs →
  ∃ rs', read_rows (<[l := r']> h) ls = Some rs' ∧ Forall P rs'.
Proof.
  intros rs Hl HP. revert rs. induction ls as [|x ls IH]; intros rs Hrs Hall.
  - injection Hrs as <-. by exists [].
  - rewrite read_rows_cons in Hrs.
    destruct (h !! x) as [rx|] eqn:Hx; [|done]. cbn in Hrs.
    destruct (read_rows h ls) as [rs0|] eqn:Hls; [|done].
    injection Hrs as <-. apply Forall_cons_1 in Hall as [Hrx Hall].
    destruct (IH rs0 eq_refl Hall) as (rs' & Hrs' & Hall').
    rewrite read_rows_cons, Hrs'.
    destruct (decide (x = l)) as [->|Hne].
    + rewrite list_lookup_insert_eq by (by eapply lookup_lt_Some).
      exists (r' :: rs'). split; [done|]. constructor; [|done].
      apply HP. assert (Some rx = Some r) as [= <-] by exact (eq_trans (eq_sym Hx) Hl).
      exact Hrx.
    + assert (<[l := r']> h !! x = Some rx) as ->
        by exact (eq_trans (list_lookup_insert_ne h l x r' (not_eq_sym Hne)) Hx).
      exists (rx :: rs'). split; [done|]. by constructor.
Qed.

(** Writing a row whose keys are those of the row it replaces keeps
    invariant 2. *)
Lemma invariant2_store w l row row' :
  invariant2 w → heap w !! l = Some row →
  dom (values row') =@{gset string} dom (values row) →
  invariant2 (set_heap w (<[l := row']> (heap w))).
Proof.
  intros (rs & Hrs & Hall) Hl Hdom.
  destruct (read_rows_insert
              (λ row, dom (values row) =@{gset string} list_to_set (headers (data w)))
              (heap w) l row row' (rows (data w)) rs Hl) as (rs' & Hrs' & Hall'); try done.
  - intros H. by rewrite Hdom.
  - by exists rs'.
Qed.

Lemma invariant2_same_table w w' :
  heap w' = heap w → rows (data w') = rows (data w) → headers (data w') = headers (data w) →
  invariant2 w → invariant2 w'.
Proof. unfold invariant2. by intros -> -> ->. Qed.

Lemma invariant2_row w rowIndex l :
  invariant2 w → Array_get (rows (data w)) rowIndex = Some l →
  ∃ row, heap w !! l = Some row
         ∧ dom (values row) =@{gset string} list_to_set (headers (data w)).
Proof.
  intros (rs & Hrs & Hall) Hget.
  apply Array_get_elem_of, list_elem_of_lookup in Hget as [i Hi].
  unfold read_rows in Hrs. apply mapM_Some in Hrs.
  destruct (Forall2_lookup_l _ _ _ _ _ Hrs Hi) as (row & Hrow & Hl).
  exists row. split; [exact Hl|].
  rewrite Forall_forall in Hall. apply Hall. by eapply list_elem_of_lookup_2.
Qed.

Lemma toggleRowVisibility_eq rowIndex w l row :
  Array_get (rows (data w)) rowIndex = Some l →
  heap w !! l = Some row →
  toggleRowVisibility rowIndex w
  = set_heap w (<[l := with_hidden row (Some (negb (default false (hidden row))))]> (heap w)).
Proof.
  intros Hl Hrow. unfold toggleRowVisibility, run. rewrite Hl.
  unfold mbind, M_bind, store. rewrite Hrow. cbn.
  unfold set_data, set_heap. cbn. by rewrite data_eta.
Qed.

(** The assignment of a number to a property: what is stored, and
    that the prototype stays. *)
Lemma assign_property_number (o : gmap string value) p k f :
  is_Some (o !! k) ∨ (k ≠ "__proto__" ∧ restricted p k = false) →
  assign_property o p k (Num f) = inr (<[k := Num f]> o, None).
Proof.
  intros Hk. unfold assign_property.
  destruct (o !! k) eqn:Ho.
  - by rewrite assigned_insert by (right; by rewrite Ho).
  - destruct Hk as [[? ?]|[Hk Hr]]; [done|].
    rewrite Hr, andb_false_r. by rewrite assigned_insert by (by left).
Qed.



(** [updateValue] on a row that takes the assignment as a property
    of its own: the key is the row's, or it is a key other than
    [__proto__] that the prototype lets the row have. *)
Lemma updateValue_eq parseFloat rowIndex header value w l row :
  Array_get (rows (data w)) rowIndex = Some l →
  heap w !! l = Some row →
  is_Some (values row !! header)
  ∨ (header ≠ "__proto__" ∧ restricted (prototype_of (prototypes w) l) header = false) →
  updateValue parseFloat rowIndex header value w
  = set_heap w (<[l := with_values row (<[header := Num (parseFloat value)]> (values row))]>
                  (heap w)).
Proof.
  intros Hl Hrow Hk. unfold updateValue, run. rewrite Hl.
  unfold mbind, M_bind, assign. rewrite Hrow, assign_property_number by done. cbn.
  unfold set_data, set_heap. cbn. by rewrite data_eta.
Qed.




Lemma decrementMonth_eq tz other rowIndex w l row s :
  Array_get (rows (data w)) rowIndex = Some l →
  heap w !! l = Some row →
  DateFns.format (DateFns.subMonths (new_Date tz other (date row)) 1) = inr s →
  decrementMonth tz other rowIndex w
  = set_heap w (<[l := with_date row s]> (heap w)).
Proof.
  intros Hl Hrow Hfmt. unfold decrementMonth, run. rewrite Hl.
  unfold mbind, M_bind, deref, store. rewrite Hrow, Hfmt. cbn.
  rewrite Hrow. cbn. unfold set_data, set_heap. cbn. by rewrite data_eta.
Qed.

(** A date that [format] cannot print ends the handler before it writes. *)
Lemma incrementMonth_unreadable tz other rowIndex w l row e :
  Array_get (rows (data w)) rowIndex = Some l →
  heap w !! l = Some row →
  DateFns.format (DateFns.addMonths (new_Date tz other (date row)) 1) = inl e →
  incrementMonth tz other rowIndex w = add_log w (Uncaught e).
Proof.
  intros Hl Hrow Hfmt. unfold incrementMonth, run. rewrite Hl.
  unfold mbind, M_bind, deref. by rewrite Hrow, Hfmt.
Qed.

Lemma decrementMonth_unreadable tz other rowIndex w l row e :
  Array_get (rows (data w)) rowIndex = Some l →
  heap w !! l = Some row →
  DateFns.format (DateFns.subMonths (new_Date tz other (date row)) 1) = inl e →
  decrementMonth tz other rowIndex w = add_log w (Uncaught e).
Proof.
  intros Hl Hrow Hfmt. unfold decrementMonth, run. rewrite Hl.
  unfold mbind, M_bind, deref. by rewrite Hrow, Hfmt.
Qed.

(** [toggleRowVisibility], [incrementMonth] and [decrementMonth], with
    any row index, keep invariant 2, and so does [updateValue] when the
    header it is given is a header of the table. *)
Theorem row_writers_keep_invariant2 parseFloat tz other rowIndex header value w :
  invariant2 w →
  invariant2 (toggleRowVisibility rowIndex w)
  ∧ invariant2 (incrementMonth tz other rowIndex w)
  ∧ invariant2 (decrementMonth tz other rowIndex w)
  ∧ (header ∈ headers (data w) → invariant2 (updateValue parseFloat rowIndex header value w)).
Proof.
  intros Hinv.
  destruct (Array_get (rows (data w)) rowIndex) as [l|] eqn:Hget.
  - destruct (invariant2_row w rowIndex l Hinv Hget) as (row & Hl & Hdom).
    split; [|split; [|split]].
    + rewrite (toggleRowVisibility_eq rowIndex w l row Hget Hl).
      by apply (invariant2_store w l row).
    + destruct (DateFns.format (DateFns.addMonths (new_Date tz other (date row)) 1))
        as [e|s] eqn:Hfmt.
      * by rewrite (incrementMonth_unreadable tz other rowIndex w l row e).
      * rewrite (incrementMonth_eq tz other rowIndex w l row s) by done.
        by apply (invariant2_store w l row).
    + destruct (DateFns.format (DateFns.subMonths (new_Date tz other (date row)) 1))
        as [e|s] eqn:Hfmt.
      * by rewrite (decrementMonth_unreadable tz other rowIndex w l row e).
      * rewrite (decrementMonth_eq tz other rowIndex w l row s) by done.
        by apply (invariant2_store w l row).
    + intros Hheader.
      rewrite (updateValue_eq parseFloat rowIndex header value w l row Hget Hl).
      * apply (invariant2_store w l row); [done..|].
        cbn. rewrite dom_insert_L, Hdom. set_solver.
      * left. apply elem_of_dom. rewrite Hdom. set_solver.
  - unfold toggleRowVisibility, updateValue, incrementMonth, decrementMonth.
    rewrite Hget. by repeat split.
Qed.

Lemma row_writers_keep_invariant2_witness :
  invariant2 (toggleRowVisibility 0 sample_world)
  ∧ invariant2 (incrementMonth 0 no_other_format 0 sample_world)
  ∧ invariant2 (decrementMonth 0 no_other_format 0 sample_world)
  ∧ ("A" ∈ headers (data sample_world)
     → invariant2 (updateValue parse_seven 0 "A" "7" sample_world)).
Proof.
  exact (row_writers_keep_invariant2 parse_seven 0 no_other_format 0 "A" "7" sample_world
           sample_world_invariant2).
Defined.

Lemma set_heap_id w : set_heap w (heap w) = w.
Proof. by destruct w. Qed.

(** Toggling the visibility of a row twice leaves the component as it
    was, but for a flag that was undefined, which is now [false]. *)
Theorem toggleRowVisibility_twice rowIndex w l row :
  Array_get (rows (data w)) rowIndex = Some l →
  heap w !! l = Some row →
  toggleRowVisibility rowIndex (toggleRowVisibility rowIndex w)
  = set_heap w (<[l := normalize_row row]> (heap w))
  ∧ (is_Some (hidden row) →
     toggleRowVisibility rowIndex (toggleRowVisibility rowIndex w) = w).
Proof.
  intros Hget Hl.
  assert (toggleRowVisibility rowIndex (toggleRowVisibility rowIndex w)
          = set_heap w (<[l := normalize_row row]> (heap w))) as Heq.
  { rewrite (toggleRowVisibility_eq rowIndex w l row Hget Hl).
    rewrite (toggleRowVisibility_eq rowIndex _ l
               (with_hidden row (Some (negb (default false (hidden row)))))); [|exact Hget|].
    - unfold set_heap. cbn. rewrite list_insert_insert_eq.
      unfold normalize_row, with_hidden. cbn. by destruct (hidden row) as [[]|].
    - cbn. apply list_lookup_insert_eq. by eapply lookup_lt_Some. }
  split; [exact Heq|]. intros [b Hb]. rewrite Heq.
  rewrite list_insert_id; [apply set_heap_id|].
  transitivity (Some row); [exact Hl|].
  f_equal. destruct row as [d vs hd]. cbn in Hb. by subst hd.
Qed.

Lemma toggleRowVisibility_twice_witness :
  toggleRowVisibility 0 (toggleRowVisibility 0 sample_world)
  = set_heap sample_world (<[0%nat := normalize_row sample_row]> (heap sample_world))
  ∧ (is_Some (hidden sample_row) →
     toggleRowVisibility 0 (toggleRowVisibility 0 sample_world) = sample_world).
Proof.
  exact (toggleRowVisibility_twice 0 sample_world 0%nat sample_row eq_refl eq_refl).
Defined.



(** ** Rows and invariant 2 *)

Lemma read_rows_filter_from (P : Row → Prop) h keep ls : ∀ i rs,
  read_rows h ls = Some rs → Forall P rs →
  ∃ rs', read_rows h (filter_from keep i ls) = Some rs' ∧ Forall P rs'.
Proof.
  induction ls as [|x ls IH]; intros i rs Hrs Hall.
  - injection Hrs as <-. by exists [].
  - rewrite read_rows_cons in Hrs.
    destruct (h !! x) as [rx|] eqn:Hx; [|done]. cbn in Hrs.
    destruct (read_rows h ls) as [rs0|] eqn:Hls; [|done].
    injection Hrs as <-. apply Forall_cons_1 in Hall as [Hrx Hall].
    destruct (IH (i + 1) rs0 eq_refl Hall) as (rs' & Hrs' & Hall').
    cbn [filter_from]. destruct (keep x i).
    + exists (rx :: rs'). split; [|by constructor].
      rewrite read_rows_cons, Hrs'.
      assert (h !! x = Some rx) as -> by exact Hx. done.
    + by exists rs'.
Qed.

Lemma seed_values_dom (hs : list string) :
  dom (fromEntries ((λ header, (header, Num 1)) <$> hs)) =@{gset string} list_to_set hs.
Proof.
  apply set_eq. intros k. rewrite elem_of_dom, seed_values_lookup, elem_of_list_to_set.
  destruct (decide (k ∈ hs)); split; intros H; try done; by destruct H.
Qed.

Lemma list_nil_or_snoc {A} (l : list A) : l = [] ∨ ∃ l' x, l = l' ++ [x].
Proof.
  induction l as [|x l' _] using rev_ind; [by left|]. right. by exists l', x.
Qed.

Lemma format_LocalTime day minute : ∃ s, DateFns.format (LocalTime day minute) = inr s.
Proof. by eexists. Qed.

Lemma addRow_unreadable tz other w ls last lastRow e :
  rows (data w) = ls ++ [last] →
  heap w !! last = Some lastRow →
  DateFns.format (DateFns.addMonths (new_Date tz other (date lastRow)) 3) = inl e →
  addRow tz other w
  = add_log (add_log w (ConsoleError "Error adding row:" e))
            (Message ("Error adding row: " +:+ exn_message e) "Error" "error").
Proof.
  intros Hrows Hlast Hfmt. destruct w as [h [hs rs] lg fs ps rf].
  cbn [data rows heap headers log files] in *. subst rs.
  unfold addRow, run, try_catch. cbn [data rows heap headers].
  rewrite Array_get_last, length_app, Nat.add_1_r. cbn [Nat.eqb].
  unfold mbind, M_bind, deref. cbn [heap]. by rewrite Hlast, Hfmt.
Qed.

(** [addRow] and [removeRow], whatever the row index and whether or
    not the last date can be read, keep invariant 2: the seed row has
    the headers as its keys, an added row has the keys of the last row. *)
Theorem addRow_removeRow_keep_invariant2 tz other rowIndex w :
  invariant2 w →
  invariant2 (addRow tz other w) ∧ invariant2 (removeRow rowIndex w).
Proof.
  intros Hinv. split.
  - destruct Hinv as (rs & Hrs & Hall).
    destruct (list_nil_or_snoc (rows (data w))) as [Hrows|(ls0 & l0 & Hrows)].
    + assert (∃ s, DateFns.format (new_Date tz other "2027-10-14") = inr s) as [s Hs].
      { rewrite (new_Date_date_only tz other _ 2027 10 14) by done. apply format_LocalTime. }
      rewrite (addRow_empty tz other w s Hrows Hs).
      eexists [_]. split.
      { cbn [heap data rows set_data]. rewrite heap_extend.
        apply (read_rows_fresh (heap w) [_]). }
      repeat constructor. cbn. apply seed_values_dom.
    + rewrite Hrows in Hrs.
      unfold read_rows in Hrs. apply mapM_Some in Hrs.
      apply Forall2_app_inv_l in Hrs as (rs1 & rs2 & Hrs1 & Hrs2 & ->).
      apply Forall2_cons_inv_l in Hrs2 as (lastRow & rs3 & Hlast & Hnil & ->).
      apply Forall2_nil_inv_l in Hnil as ->.
      apply Forall_app in Hall as [Hall1 Hall2].
      apply Forall_cons_1 in Hall2 as [Hlastdom _].
      destruct (DateFns.format (DateFns.addMonths (new_Date tz other (date lastRow)) 3))
        as [e|s] eqn:Hfmt.
      * rewrite (addRow_unreadable tz other w ls0 l0 lastRow e Hrows Hlast Hfmt).
        exists (rs1 ++ [lastRow]). cbn. rewrite Hrows. split.
        -- apply mapM_Some. apply Forall2_app; [done|]. by repeat constructor.
        -- apply Forall_app. split; [done|]. by repeat constructor.
      * rewrite (addRow_nonempty tz other w ls0 l0 lastRow s Hrows Hlast Hfmt).
        eexists. cbn [heap data rows headers set_data]. rewrite heap_extend, Hrows. split.
        -- apply read_rows_snoc; [|by rewrite lookup_app_r, Nat.sub_diag].
           apply read_rows_app_l. apply mapM_Some.
           apply Forall2_app; [exact Hrs1|]. by repeat constructor.
        -- apply Forall_app. split; [apply Forall_app; split; [done|by repeat constructor]|].
           by repeat constructor.
  - destruct Hinv as (rs & Hrs & Hall).
    destruct (read_rows_filter_from
                (λ row, dom (values row) =@{gset string} list_to_set (headers (data w)))
                (heap w) (λ _ index, negb (index =? rowIndex)) (rows (data w)) 0 rs Hrs Hall)
      as (rs' & Hrs' & Hall').
    by exists rs'.
Qed.

Lemma addRow_removeRow_keep_invariant2_witness :
  invariant2 (addRow 0 no_other_format sample_world) ∧ invariant2 (removeRow 0 sample_world).
Proof.
  exact (addRow_removeRow_keep_invariant2 0 no_other_format 0 sample_world
           sample_world_invariant2).
Defined.

(** * More of the persistence pipeline *)

Lemma prepare_row_no_NaN row :
  map_Forall (λ _ v, isNaN v = false) (values (prepare_row row)).
Proof.
  intros k v. cbn. rewrite lookup_fmap.
  destruct (values row !! k) as [v0|]; [|done]. cbn. intros [= <-].
  by destruct (isNaN v0) eqn:Hv0.
Qed.

Lemma prepare_row_idempotent row : prepare_row (prepare_row row) = prepare_row row.
Proof.
  unfold prepare_row at 1. unfold with_values. cbn [date hidden].
  change (date (prepare_row row)) with (date row).
  change (hidden (prepare_row row)) with (hidden row).
  unfold prepare_row, with_values. cbn [values]. f_equal.
  rewrite <- map_fmap_compose. apply map_fmap_ext. intros k v _. cbn.
  destruct (isNaN v) eqn:Hv; [done|]. by rewrite Hv.
Qed.

(** No cell of the copy that [prepareData] returns is NaN (or
    undefined), and preparing the copy once more changes nothing in it. *)
Theorem prepareData_no_NaN w rs :
  read_rows (heap w) (rows (data w)) = Some rs →
  ∃ prepared w' rs',
    prepareData (data w) w = Val prepared w'
    ∧ snapshot (heap w') prepared = Some (headers (data w), rs')
    ∧ Forall (λ row, map_Forall (λ _ v, isNaN v = false) (values row)) rs'
    ∧ ∃ again w'',
        prepareData prepared w' = Val again w''
        ∧ snapshot (heap w'') again = Some (headers (data w), rs').
Proof.
  intros Hrs. eexists _, _, (prepare_row <$> rs).
  split; [exact (prepareData_eq w rs Hrs)|].
  pose proof (read_rows_prepared w rs) as Hread.
  split; [|split].
  - unfold snapshot. cbn [rows headers]. by rewrite Hread.
  - rewrite Forall_fmap. apply Forall_forall. intros row _. apply prepare_row_no_NaN.
  - eexists _, _. split.
    + unfold prepareData. rewrite bind_eq. cbn [rows headers].
      by rewrite (map_rows_spec prepare_row _ _ (prepare_row <$> rs) Hread).
    + unfold snapshot. cbn [rows headers]. rewrite heap_extend.
      rewrite read_rows_mapped. cbn. do 2 f_equal.
      rewrite <- list_fmap_compose. apply list_fmap_ext. intros _ row _.
      apply prepare_row_idempotent.
Qed.

Lemma prepareData_no_NaN_witness :
  ∃ prepared w' rs',
    prepareData (data nan_world) nan_world = Val prepared w'
    ∧ snapshot (heap w') prepared = Some (headers (data nan_world), rs')
    ∧ Forall (λ row, map_Forall (λ _ v, isNaN v = false) (values row)) rs'
    ∧ ∃ again w'',
        prepareData prepared w' = Val again w''
        ∧ snapshot (heap w'') again = Some (headers (data nan_world), rs').
Proof. exact (prepareData_no_NaN nan_world [nan_row] eq_refl). Defined.

(** ** Saving *)




(** A disk that refuses the write: the table stays, no file is
    written, and the error is shown. *)
Example saveDataToFile_on_a_full_disk :
  let w := {| heap := heap sample_world; data := data sample_world; log := [];
              files := ∅; prototypes := ∅; refused := {[ "data.json" := IOError ]} |} in
  let w' := saveDataToFile (Some "data.json") w in
  view w' = view w ∧ files w' = ∅
  ∧ log w' = [ConsoleError "Failed to save file:" IOError;
              Message ("Failed to save file: " +:+ exn_message IOError) "Save Error" "error"].
Proof. cbn zeta. repeat split; by vm_compute. Qed.

(** ** Loading *)

Section Load.

Variables (tz : Z) (other : string → Date).

Lemma loadDataFromFile_missing path w :
  files w !! path = None →
  loadDataFromFile tz other (Some path) w
  = add_log (add_log w (ConsoleError "Failed to load file:" IOError))
            (Message ("Failed to load file: " +:+ exn_message IOError) "Load Error" "error").
Proof.
  intros Hfile. unfold loadDataFromFile, run, try_catch.
  rewrite bind_eq. unfold readTextFile at 1. by rewrite Hfile.
Qed.

Lemma loadDataFromFile_not_json path w :
  files w !! path = Some NotJson →
  loadDataFromFile tz other (Some path) w
  = add_log w (Message "Invalid JSON file format" "Load Error" "error").
Proof.
  intros Hfile. unfold loadDataFromFile, run, try_catch.
  rewrite bind_eq. unfold readTextFile at 1. by rewrite Hfile.
Qed.

Lemma loadDataFromFile_invalid path w raw issues :
  files w !! path = Some (Document raw) →
  safeParse tz other raw = inl issues →
  loadDataFromFile tz other (Some path) w
  = add_log w (Message ("Invalid data format:" +:+ newline
                        +:+ String.concat newline
                              ((λ err : issue, join_path err.1 +:+ ": " +:+ err.2) <$> issues))
                       "Validation Error" "error").
Proof.
  intros Hfile Hparse. unfold loadDataFromFile, run, try_catch.
  rewrite bind_eq. unfold readTextFile at 1. rewrite Hfile.
  rewrite bind_eq. unfold parseData. cbn [JSON_parse]. by rewrite Hparse.
Qed.

Lemma loadDataFromFile_accepted path w raw hs rs :
  files w !! path = Some (Document raw) →
  safeParse tz other raw = inr (hs, rs) →
  loadDataFromFile tz other (Some path) w
  = set_data (extend (extend w rs) (normalize_row <$> rs))
      {| headers := hs; rows := seq (length (heap (extend w rs))) (length rs) |}.
Proof.
  intros Hfile Hparse. unfold loadDataFromFile, run, try_catch.
  rewrite bind_eq. unfold readTextFile at 1. rewrite Hfile.
  rewrite bind_eq. unfold parseData. cbn [JSON_parse]. rewrite Hparse.
  rewrite bind_eq, mapM_alloc_spec. cbn [mret M_ret].
  rewrite (applyLoadedData_eq _ _ rs); [done|].
  cbn [rows]. rewrite heap_extend. apply read_rows_fresh.
Qed.

(** A load that fails, because the file cannot be read, is not JSON or
    does not pass the schema, leaves the table, every row object and
    every file as they were, and ends with an error dialog; a dismissed
    dialog does nothing at all. *)
Theorem loadDataFromFile_failure path w :
  files w !! path = None
  ∨ files w !! path = Some NotJson
  ∨ (∃ raw issues, files w !! path = Some (Document raw)
                   ∧ safeParse tz other raw = inl issues) →
  let w' := loadDataFromFile tz other (Some path) w in
  data w' = data w ∧ heap w' = heap w ∧ files w' = files w
  ∧ (∃ text title, last (log w') = Some (Message text title "error"))
  ∧ loadDataFromFile tz other None w = w.
Proof.
  intros Hcase w'. subst w'.
  assert (loadDataFromFile tz other None w = w) as Hnone by (by destruct w).
  destruct Hcase as [Hfile|[Hfile|(raw & issues & Hfile & Hparse)]].
  - rewrite (loadDataFromFile_missing path w Hfile). cbn.
    repeat split; try done. eexists _, _. by rewrite last_snoc.
  - rewrite (loadDataFromFile_not_json path w Hfile). cbn.
    repeat split; try done. eexists _, _. by rewrite last_snoc.
  - rewrite (loadDataFromFile_invalid path w raw issues Hfile Hparse). cbn.
    repeat split; try done. eexists _, _. by rewrite last_snoc.
Qed.

(** A load that passes the schema commits the headers and rows of the
    file, every row with a [hidden] flag: the flag of the file, or
    [false] where the file has none; dates and values are those of the
    file, nothing is reported, and the row objects of the table it
    replaces are not written to. *)
Theorem loadDataFromFile_success path w raw hs rs :
  files w !! path = Some (Document raw) →
  safeParse tz other raw = inr (hs, rs) →
  let w' := loadDataFromFile tz other (Some path) w in
  ∃ rs', view w' = Some (hs, rs')
    ∧ Forall2 (λ row row', date row' = date row ∧ values row' = values row
                           ∧ hidden row' = Some (default false (hidden row))) rs rs'
    ∧ log w' = log w ∧ files w' = files w
    ∧ ∃ new, heap w' = heap w ++ new.
Proof.
  intros Hfile Hparse w'. subst w'.
  rewrite (loadDataFromFile_accepted path w raw hs rs Hfile Hparse).
  exists (normalize_row <$> rs). split; [apply (view_mapped (extend w rs))|].
  split; [|split; [reflexivity|split; [reflexivity|]]].
  - apply Forall2_fmap_r, Forall_Forall2_diag, Forall_forall. by intros row _.
  - cbn [heap set_data]. rewrite !heap_extend, <- app_assoc. by eexists.
Qed.

End Load.

Lemma loadDataFromFile_failure_witness :
  let w' := loadDataFromFile 0 no_other_format (Some "data.json") sample_world in
  data w' = data sample_world ∧ heap w' = heap sample_world ∧ files w' = files sample_world
  ∧ (∃ text title, last (log w') = Some (Message text title "error"))
  ∧ loadDataFromFile 0 no_other_format None sample_world = sample_world.
Proof.
  apply (loadDataFromFile_failure 0 no_other_format "data.json" sample_world).
  by left.
Defined.

Lemma loadDataFromFile_success_witness :
  let w := saveDataToFile (Some "data.json") nan_world in
  let w' := loadDataFromFile 0 no_other_format (Some "data.json") w in
  ∃ rs', view w' = Some (["A"], rs')
    ∧ Forall2 (λ row row', date row' = date row ∧ values row' = values row
                           ∧ hidden row' = Some (default false (hidden row)))
              [prepare_row nan_row] rs'
    ∧ log w' = log w ∧ files w' = files w
    ∧ ∃ new, heap w' = heap w ++ new.
Proof.
  intros w.
  apply (loadDataFromFile_success 0 no_other_format "data.json" w
           (data_json ["A"] [prepare_row nan_row]) ["A"] [prepare_row nan_row]).
  - reflexivity.
  - by vm_compute.
Defined.

(** * The reset and the keyboard shortcuts *)

Lemma row_writers_dangling parseFloat tz other rowIndex header value w l :
  Array_get (rows (data w)) rowIndex = Some l →
  heap w !! l = None →
  toggleRowVisibility rowIndex w = add_log w (Uncaught DanglingRef)
  ∧ updateValue parseFloat rowIndex header value w = add_log w (Uncaught DanglingRef)
  ∧ incrementMonth tz other rowIndex w = add_log w (Uncaught DanglingRef)
  ∧ decrementMonth tz other rowIndex w = add_log w (Uncaught DanglingRef).
Proof.
  intros Hget Hl.
  unfold toggleRowVisibility, updateValue, incrementMonth, decrementMonth, run.
  rewrite Hget. unfold mbind, M_bind, store, assign, deref. by rewrite Hl.
Qed.

Lemma updateValue_keeps_data parseFloat rowIndex header value w :
  data (updateValue parseFloat rowIndex header value w) = data w.
Proof.
  unfold updateValue, run.
  destruct (Array_get (rows (data w)) rowIndex) as [l|]; [|done].
  unfold mbind, M_bind, assign. destruct (heap w !! l) as [row|]; [|done].
  destruct (assign_property _ _ _ _) as [e|[o [p|]]]; cbn; [done|apply data_eta..].
Qed.

Lemma row_writers_keep_data parseFloat tz other rowIndex header value w :
  data (toggleRowVisibility rowIndex w) = data w
  ∧ data (updateValue parseFloat rowIndex header value w) = data w
  ∧ data (incrementMonth tz other rowIndex w) = data w
  ∧ data (decrementMonth tz other rowIndex w) = data w.
Proof.
  destruct (Array_get (rows (data w)) rowIndex) as [l|] eqn:Hget.
  - destruct (heap w !! l) as [row|] eqn:Hl.
    + split; [|split; [|split]].
      * by rewrite (toggleRowVisibility_eq rowIndex w l row Hget Hl).
      * apply updateValue_keeps_data.
      * destruct (DateFns.format (DateFns.addMonths (new_Date tz other (date row)) 1))
          as [e|s] eqn:Hfmt.
        -- by rewrite (incrementMonth_unreadable tz other rowIndex w l row e).
        -- by rewrite (incrementMonth_eq tz other rowIndex w l row s).
      * destruct (DateFns.format (DateFns.subMonths (new_Date tz other (date row)) 1))
          as [e|s] eqn:Hfmt.
        -- by rewrite (decrementMonth_unreadable tz other rowIndex w l row e).
        -- by rewrite (decrementMonth_eq tz other rowIndex w l row s).
    + destruct (row_writers_dangling parseFloat tz other rowIndex header value w l Hget Hl)
        as (-> & -> & -> & ->). done.
  - unfold toggleRowVisibility, updateValue, incrementMonth, decrementMonth.
    by rewrite Hget.
Qed.

Lemma resetToDefaultData_id DEFAULT_DATA w :
  data w = DEFAULT_DATA → resetToDefaultData DEFAULT_DATA w = w.
Proof. intros <-. by destruct w. Qed.

(** While the table is the default one, a reset after an edit of a
    cell, a toggle of a flag or a shift of a date changes nothing:
    these handlers have written into the row objects of [DEFAULT_DATA]
    itself, and the reset commits the same objects again. *)
Theorem reset_keeps_row_edits DEFAULT_DATA parseFloat tz other rowIndex header value w :
  data w = DEFAULT_DATA →
  resetToDefaultData DEFAULT_DATA (toggleRowVisibility rowIndex w)
  = toggleRowVisibility rowIndex w
  ∧ resetToDefaultData DEFAULT_DATA (updateValue parseFloat rowIndex header value w)
    = updateValue parseFloat rowIndex header value w
  ∧ resetToDefaultData DEFAULT_DATA (incrementMonth tz other rowIndex w)
    = incrementMonth tz other rowIndex w
  ∧ resetToDefaultData DEFAULT_DATA (decrementMonth tz other rowIndex w)
    = decrementMonth tz other rowIndex w.
Proof.
  intros Hdata.
  destruct (row_writers_keep_data parseFloat tz other rowIndex header value w)
    as (H1 & H2 & H3 & H4).
  repeat split; apply resetToDefaultData_id; congruence.
Qed.

Lemma reset_keeps_row_edits_witness :
  let DEFAULT_DATA := data sample_world in
  resetToDefaultData DEFAULT_DATA (toggleRowVisibility 0 sample_world)
  = toggleRowVisibility 0 sample_world
  ∧ resetToDefaultData DEFAULT_DATA (updateValue parse_seven 0 "A" "7" sample_world)
    = updateValue parse_seven 0 "A" "7" sample_world
  ∧ resetToDefaultData DEFAULT_DATA (incrementMonth 0 no_other_format 0 sample_world)
    = incrementMonth 0 no_other_format 0 sample_world
  ∧ resetToDefaultData DEFAULT_DATA (decrementMonth 0 no_other_format 0 sample_world)
    = decrementMonth 0 no_other_format 0 sample_world.
Proof.
  exact (reset_keeps_row_edits (data sample_world) parse_seven 0 no_other_format 0 "A" "7"
           sample_world eq_refl).
Defined.

(** A reset after [addColumn], [removeColumn], [updateHeader],
    [removeRow] or [addRow] shows the default table as it read before
    the call: these handlers have not written into its row objects. *)
Theorem reset_after_structural_handlers DEFAULT_DATA tz other header oldHeader newHeader
    rowIndex w v :
  snapshot (heap w) DEFAULT_DATA = Some v →
  view (resetToDefaultData DEFAULT_DATA (addColumn w)) = Some v
  ∧ view (resetToDefaultData DEFAULT_DATA (removeColumn header w)) = Some v
  ∧ view (resetToDefaultData DEFAULT_DATA (updateHeader oldHeader newHeader w)) = Some v
  ∧ view (resetToDefaultData DEFAULT_DATA (removeRow rowIndex w)) = Some v
  ∧ view (resetToDefaultData DEFAULT_DATA (addRow tz other w)) = Some v.
Proof.
  intros Hv. unfold view, resetToDefaultData, run, setData, set_data.
  cbn [heap data]. repeat split.
  - by apply addColumn_keeps_snapshots.
  - by apply removeColumn_keeps_snapshots.
  - by apply updateHeader_keeps_snapshots.
  - by apply removeRow_keeps_snapshots.
  - by apply addRow_keeps_snapshots.
Qed.

Lemma reset_after_structural_handlers_witness :
  let DEFAULT_DATA := data sample_world in
  let v := (["A"], [sample_row]) in
  view (resetToDefaultData DEFAULT_DATA (addColumn sample_world)) = Some v
  ∧ view (resetToDefaultData DEFAULT_DATA (removeColumn "A" sample_world)) = Some v
  ∧ view (resetToDefaultData DEFAULT_DATA (updateHeader "A" "B" sample_world)) = Some v
  ∧ view (resetToDefaultData DEFAULT_DATA (removeRow 0 sample_world)) = Some v
  ∧ view (resetToDefaultData DEFAULT_DATA (addRow 0 no_other_format sample_world)) = Some v.
Proof.
  exact (reset_after_structural_handlers (data sample_world) 0 no_other_format "A" "A" "B" 0
           sample_world (["A"], [sample_row]) eq_refl).
Defined.

(** ** The keyboard shortcuts *)

Lemma saveDataToFile_of_current filePath w :
  saveDataToFile filePath w = saveDataToFile_of (data w) filePath w.
Proof. reflexivity. Qed.






(** Ctrl+S on a disk that refuses the write: the error is shown and
    no file is written. *)
Example handleKeyDown_on_a_full_disk :
  let w := {| heap := heap sample_world; data := data sample_world; log := [];
              files := ∅; prototypes := ∅; refused := {[ "data.json" := IOError ]} |} in
  let e := {| ctrlKey := false; metaKey := true; key := "s" |} in
  let '(w', prevented) :=
    handleKeyDown 0 no_other_format (data sample_world) e (Some "data.json") None w in
  prevented = true ∧ files w' = ∅
  ∧ log w' = [ConsoleError "Failed to save file:" IOError;
              Message ("Failed to save file: " +:+ exn_message IOError) "Save Error" "error"].
Proof. cbn zeta. repeat split; by vm_compute. Qed.

(** * The cache and the effect on [data] *)

Section Cache.

Variables (tz : Z) (other : string → Date).
Variables (appCacheDir : exn + string) (join : string → string → exn + string).

Lemma resolveCacheFilePath_eq w :
  resolveCacheFilePath appCacheDir join w
  = match appCacheDir with
    | inl e => Exn e w
    | inr dir =>
        match refused w !! dir with
        | Some e => Exn e w
        | None =>
            match join dir "ai-progress-data.cache.json" with
            | inl e => Exn e w
            | inr path => Val path w
            end
        end
    end.
Proof.
  unfold resolveCacheFilePath. rewrite bind_eq.
  destruct appCacheDir as [e|dir]; [done|]. cbn [lift mret M_ret].
  rewrite bind_eq. unfold mkdir at 1. destruct (refused w !! dir) as [e|]; [done|].
  by destruct (join dir _).
Qed.

Lemma getCacheFilePath_unset cacheFilePath w :
  is_set cacheFilePath = false →
  getCacheFilePath appCacheDir join cacheFilePath w = resolveCacheFilePath appCacheDir join w.
Proof.
  unfold is_set, getCacheFilePath. destruct cacheFilePath as [path|]; [|done].
  by intros ->.
Qed.

Lemma getCacheFilePath_set path w :
  path ≠ "" → getCacheFilePath appCacheDir join (Some path) w = Val path w.
Proof.
  intros Hpath. unfold getCacheFilePath.
  apply String.eqb_neq in Hpath. by rewrite Hpath.
Qed.

Lemma getCacheFilePath_world cacheFilePath w :
  world_of (getCacheFilePath appCacheDir join cacheFilePath w) = w.
Proof.
  destruct (is_set cacheFilePath) eqn:Hset.
  - unfold is_set in Hset. destruct cacheFilePath as [path|]; [|done].
    apply negb_true_iff, String.eqb_neq in Hset. by rewrite getCacheFilePath_set.
  - rewrite (getCacheFilePath_unset _ _ Hset), resolveCacheFilePath_eq.
    destruct appCacheDir as [e|dir]; [done|].
    destruct (refused w !! dir); [done|]. by destruct (join dir _).
Qed.

Lemma cacheData_unset cacheFilePath dataToCache w :
  is_set cacheFilePath = false →
  cacheData appCacheDir join cacheFilePath dataToCache w
  = match resolveCacheFilePath appCacheDir join w with
    | Val path _ => Val (Some path) w
    | Exn e _ => Val cacheFilePath (add_log w (ConsoleError "Failed to cache data:" e))
    end.
Proof.
  intros Hunset. unfold cacheData, try_catch. rewrite !bind_eq, Hunset. cbn [negb].
  rewrite bind_eq, (getCacheFilePath_unset _ _ Hunset).
  pose proof (getCacheFilePath_world cacheFilePath w) as Hw.
  rewrite (getCacheFilePath_unset _ _ Hunset) in Hw.
  destruct (resolveCacheFilePath appCacheDir join w) as [path w1|e w1];
    cbn in Hw; subst w1; [|done].
  cbn [mret M_ret].
  unfold is_set in Hunset. destruct cacheFilePath as [p|]; [|done].
  apply negb_false_iff in Hunset. by rewrite Hunset.
Qed.



Lemma mapM_deref_world ls : ∀ w, world_of (mapM deref ls w) = w.
Proof.
  induction ls as [|l ls IH]; intros w; [done|].
  rewrite mapM_cons. unfold deref at 1. destruct (heap w !! l) as [r|]; [|done].
  specialize (IH w). by destruct (mapM deref ls w).
Qed.

(** Whatever its arguments, whatever the store and whatever the file
    system refuses, [cacheData] ends without an exception, shows no
    dialog, and changes neither the table nor a row object.  A
    failure is written to the console only; then no file has changed
    and the state variable is as it was. *)
Theorem cacheData_is_quiet cacheFilePath dataToCache w :
  ∃ state w',
    cacheData appCacheDir join cacheFilePath dataToCache w = Val state w'
    ∧ data w' = data w ∧ heap w' = heap w
    ∧ (log w' = log w
       ∨ ∃ e, log w' = log w ++ [ConsoleError "Failed to cache data:" e]
              ∧ files w' = files w ∧ state = cacheFilePath).
Proof.
  destruct (is_set cacheFilePath) eqn:Hset.
  - unfold is_set in Hset. destruct cacheFilePath as [path|]; [|done].
    apply negb_true_iff in Hset.
    unfold cacheData, try_catch, is_set. rewrite !bind_eq, Hset. cbn [negb mret M_ret].
    unfold stringify. rewrite !bind_eq.
    pose proof (mapM_deref_world (rows dataToCache) w) as Hw.
    destruct (mapM deref (rows dataToCache) w) as [rs w1|e w1]; cbn in Hw; subst w1.
    + cbn [mret M_ret]. unfold writeTextFile.
      destruct (refused w !! path) as [e|].
      * eexists _, _. split; [reflexivity|]. cbn. eauto 10.
      * eexists _, _. split; [reflexivity|]. cbn. auto.
    + eexists _, _. split; [reflexivity|]. cbn. eauto 10.
  - rewrite (cacheData_unset _ _ _ Hset).
    destruct (resolveCacheFilePath appCacheDir join w) as [path w1|e w1].
    + eexists _, _. split; [reflexivity|]. auto.
    + eexists _, _. split; [reflexivity|]. cbn. eauto 10.
Qed.



Lemma loadCachedData_absent cacheFilePath w path :
  getCacheFilePath appCacheDir join cacheFilePath w = Val path w →
  files w !! path = None →
  loadCachedData tz other appCacheDir join cacheFilePath w = Val (Some path) w.
Proof.
  intros Hpath Hfile. unfold loadCachedData. rewrite bind_eq, Hpath.
  rewrite bind_eq. unfold exists_file at 1. rewrite Hfile.
  rewrite bool_decide_eq_false_2 by (by intros [? ?]). by rewrite bind_eq.
Qed.

Lemma loadCachedData_present cacheFilePath w path fileContent :
  getCacheFilePath appCacheDir join cacheFilePath w = Val path w →
  files w !! path = Some fileContent →
  loadCachedData tz other appCacheDir join cacheFilePath w
  = match (validatedData ← parseData tz other fileContent;
           match validatedData with
           | Some validatedData => applyLoadedData validatedData
           | None => mret ()
           end) w with
    | Val _ w' => Val (Some path) w'
    | Exn e w' => Exn e w'
    end.
Proof.
  intros Hpath Hfile. unfold loadCachedData. rewrite bind_eq, Hpath.
  rewrite bind_eq. unfold exists_file at 1. rewrite Hfile.
  rewrite bool_decide_eq_true_2 by (by eexists).
  rewrite bind_eq. rewrite (bind_eq (readTextFile path)).
  unfold readTextFile at 1. rewrite Hfile.
  by destruct ((parseData tz other fileContent ≫= _) w).
Qed.

(** At start-up, a cache file that does not exist is no error: nothing
    changes and nothing is reported, the path is remembered.  A cache
    file that is not JSON is reported like a file the user has opened,
    and the table stays. *)
Theorem loadCachedData_without_cache cacheFilePath w path :
  getCacheFilePath appCacheDir join cacheFilePath w = Val path w →
  (files w !! path = None →
   loadCachedData tz other appCacheDir join cacheFilePath w = Val (Some path) w)
  ∧ (files w !! path = Some NotJson →
     loadCachedData tz other appCacheDir join cacheFilePath w
     = Val (Some path)
           (add_log w (Message "Invalid JSON file format" "Load Error" "error"))).
Proof.
  intros Hpath. split.
  - by apply loadCachedData_absent.
  - intros Hfile. by rewrite (loadCachedData_present _ _ _ _ Hpath Hfile).
Qed.


End Cache.


(** The cache on a disk that refuses the write, and with a cache
    directory that cannot be made: a console error, no file. *)
Example cacheData_on_a_full_disk :
  let w := {| heap := heap sample_world; data := data sample_world; log := [];
              files := ∅; prototypes := ∅;
              refused := {[ "cache.json" := IOError; "/cache" := IOError ]} |} in
  cacheData (inr "/cache") slash_join (Some "cache.json") (data w) w
  = Val (Some "cache.json") (add_log w (ConsoleError "Failed to cache data:" IOError))
  ∧ cacheData (inr "/cache") slash_join None (data w) w
    = Val None (add_log w (ConsoleError "Failed to cache data:" IOError))
  ∧ cacheData (inl IOError) slash_join None (data w) w
    = Val None (add_log w (ConsoleError "Failed to cache data:" IOError)).
Proof. cbn zeta. repeat split; by vm_compute. Qed.


Lemma loadCachedData_without_cache_witness :
  (files sample_world !! "/cache/ai-progress-data.cache.json" = None →
   loadCachedData 0 no_other_format (inr "/cache") slash_join None sample_world
   = Val (Some "/cache/ai-progress-data.cache.json") sample_world)
  ∧ (files sample_world !! "/cache/ai-progress-data.cache.json" = Some NotJson →
     loadCachedData 0 no_other_format (inr "/cache") slash_join None sample_world
     = Val (Some "/cache/ai-progress-data.cache.json")
           (add_log sample_world (Message "Invalid JSON file format" "Load Error" "error"))).
Proof.
  exact (loadCachedData_without_cache 0 no_other_format (inr "/cache") slash_join None
           sample_world "/cache/ai-progress-data.cache.json" eq_refl).
Defined.


(** ** The calendar

    [civil_from_days] undoes [days_from_civil]; what [addMonths] and
    [subMonths] make of a date of the calendar; what [format] prints
    is read back by [new Date]. *)
Ltac div_lia := Z.to_euclidean_division_equations; lia.

Lemma year_of_era yoe doy :
  0 ≤ yoe < 400 → 0 ≤ doy →
  (doy ≤ 364 ∨ (doy = 365 ∧ (yoe + 1) mod 4 = 0 ∧ ((yoe + 1) mod 100 ≠ 0 ∨ yoe = 399))) →
  let doe := yoe * 365 + yoe / 4 - yoe / 100 + doy in
  (doe - doe / 1460 + doe / 36524 - doe / 146096) / 365 = yoe ∧ 0 ≤ doe < 146097.
Proof.
  intros Hy Hd Hl doe. subst doe. div_lia.
Qed.

Lemma month_of_year mp d :
  0 ≤ mp ≤ 11 → 1 ≤ d ≤ 31 →
  (mp = 11 → d ≤ 29) →
  (mp = 1 ∨ mp = 3 ∨ mp = 6 ∨ mp = 8 → d ≤ 30) →
  let doy := (153 * mp + 2) / 5 + d - 1 in
  (5 * doy + 2) / 153 = mp.
Proof.
  intros Hmp Hd H11 H30 doy. subst doy. div_lia.
Qed.

Lemma days_in_month_bounds y m : 28 ≤ days_in_month y m ≤ 31.
Proof. unfold days_in_month. repeat case_match; lia. Qed.

Lemma leap_year_true y :
  leap_year y = true ↔ y mod 4 = 0 ∧ (y mod 100 ≠ 0 ∨ y mod 400 = 0).
Proof.
  unfold leap_year.
  rewrite andb_true_iff, orb_true_iff, negb_true_iff, !Z.eqb_eq, Z.eqb_neq. done.
Qed.

Lemma civil_from_days_from_civil y m d :
  1 ≤ m ≤ 12 → 1 ≤ d ≤ days_in_month y m →
  civil_from_days (days_from_civil y m d) = (y, m, d).
Proof.
  intros Hm Hd. unfold days_from_civil, civil_from_days. cbv zeta.
  set (y' := if m <=? 2 then y - 1 else y).
  set (era := y' / 400). set (yoe := y' - era * 400).
  set (mp := if 2 <? m then m - 3 else m + 9).
  set (doy := (153 * mp + 2) / 5 + d - 1).
  set (doe := yoe * 365 + yoe / 4 - yoe / 100 + doy).
  assert (0 ≤ yoe < 400) as Hyoe by (subst yoe era; div_lia).
  assert (0 ≤ mp ≤ 11) as Hmp by (subst mp; case_match; lia).
  assert (m = if mp <? 10 then mp + 3 else mp - 9) as Hm'.
  { subst mp. repeat case_match; lia. }
  assert (y = if m <=? 2 then yoe + era * 400 + 1 else yoe + era * 400) as Hy.
  { subst yoe y'. repeat case_match; lia. }
  assert (1 ≤ d ≤ 31 ∧ (mp = 11 → d ≤ 29) ∧ (mp = 1 ∨ mp = 3 ∨ mp = 6 ∨ mp = 8 → d ≤ 30)
          ∧ (mp = 11 → d = 29 → (yoe + 1) mod 4 = 0 ∧ ((yoe + 1) mod 100 ≠ 0 ∨ yoe = 399)))
    as (Hd1 & Hd2 & Hd3 & Hd4).
  { pose proof (days_in_month_bounds y m) as Hb.
    split; [lia|]. unfold days_in_month in Hd.
    split; [|split].
    - intros H11. assert (m = 2) as Hm2 by (clear -H11 Hm; unfold mp in H11; destruct (2 <? m); lia).
      rewrite Hm2 in Hd. cbn in Hd. destruct (leap_year y); lia.
    - intros H30. assert (m = 4 ∨ m = 6 ∨ m = 9 ∨ m = 11) as Hcase
        by (clear -H30 Hm; unfold mp in H30; destruct (2 <? m); lia).
      destruct_or! Hcase; rewrite Hcase in Hd; cbn in Hd; lia.
    - intros H11 H29. assert (m = 2) as Hm2 by (clear -H11 Hm; unfold mp in H11; destruct (2 <? m); lia).
      rewrite Hm2 in Hd, Hy. cbn in Hd, Hy. destruct (leap_year y) eqn:Hleap; [|lia].
      apply leap_year_true in Hleap. clear -Hleap Hy Hyoe. div_lia. }
  assert (0 ≤ doy ∧ (doy ≤ 364 ∨ doy = 365 ∧ (yoe + 1) mod 4 = 0
                                  ∧ ((yoe + 1) mod 100 ≠ 0 ∨ yoe = 399))) as [Hdoy0 Hdoy].
  { subst doy. clear -Hmp Hd1 Hd2 Hd3 Hd4.
    assert (mp = 11 ∨ mp ≠ 11) as [->|Hne] by lia.
    - specialize (Hd2 eq_refl). assert (d = 29 ∨ d ≤ 28) as [->|?] by lia.
      + specialize (Hd4 eq_refl eq_refl). change ((153 * 11 + 2) / 5) with 337.
        split; [lia|]. right. split; [lia|done].
      + change ((153 * 11 + 2) / 5) with 337. lia.
    - clear Hd4 Hd2. div_lia. }
  destruct (year_of_era yoe doy Hyoe Hdoy0 Hdoy) as [Hyear Hdoe]. fold doe in Hyear, Hdoe.
  replace (era * 146097 + doe - 719468 + 719468) with (doe + era * 146097) by lia.
  rewrite Z.div_add by lia. rewrite (Z.div_small doe) by lia.
  replace (doe + era * 146097 - (0 + era) * 146097) with doe by lia.
  rewrite Hyear.
  replace (doe - (365 * yoe + yoe / 4 - yoe / 100)) with doy by (subst doe; lia).
  pose proof (month_of_year mp d Hmp Hd1 Hd2 Hd3) as Hmonth. fold doy in Hmonth.
  rewrite Hmonth, <- Hm'. rewrite (Z.add_0_l era), <- Hy. f_equal. subst doy. lia.
Qed.

(** The first day of the next month follows the last day of the month. *)
Lemma next_month_first y m :
  1 ≤ m ≤ 12 →
  days_from_civil (next_month y m).1 (next_month y m).2 1
  = days_from_civil y m 1 + days_in_month y m.
Proof.
  intros Hm. unfold next_month.
  assert (m = 1 ∨ m = 2 ∨ m = 3 ∨ m = 4 ∨ m = 5 ∨ m = 6 ∨ m = 7 ∨ m = 8 ∨ m = 9
          ∨ m = 10 ∨ m = 11 ∨ m = 12) as Hcase by lia.
  destruct_or! Hcase; subst m; cbn [Z.eqb Pos.eqb fst snd];
    unfold days_from_civil, days_in_month, leap_year; simpl.
  2: { destruct (Z.eqb_spec (y mod 4) 0), (Z.eqb_spec (y mod 100) 0),
         (Z.eqb_spec (y mod 400) 0); simpl; div_lia. }
  all: try (replace (y + 1 - 1) with y by lia).
  all: div_lia.
Qed.

Lemma days_from_civil_day y m d :
  days_from_civil y m d = days_from_civil y m 1 + d - 1.
Proof. unfold days_from_civil. lia. Qed.

Lemma MakeDay_month y m d :
  1 ≤ m ≤ 12 → MakeDay y (m - 1) d = days_from_civil y m d.
Proof.
  intros Hm. unfold MakeDay.
  rewrite Z.div_small, Z.mod_small by lia.
  rewrite (days_from_civil_day y m d). f_equal. f_equal. f_equal; lia.
Qed.


Lemma previous_month_valid y m :
  1 ≤ m ≤ 12 → 1 ≤ (previous_month y m).2 ≤ 12.
Proof. unfold previous_month. case_match; cbn; lia. Qed.

Lemma next_previous_month y m :
  1 ≤ m ≤ 12 →
  next_month (previous_month y m).1 (previous_month y m).2 = (y, m).
Proof.
  intros Hm. unfold previous_month, next_month.
  destruct (Z.eqb_spec m 1); cbn.
  - f_equal; lia.
  - destruct (Z.eqb_spec (m - 1) 12); [lia|]. f_equal. lia.
Qed.


(** [MakeDay(y, m - 1, 0)]: the last day of the month before [m]. *)
Lemma MakeDay_end_of_previous_month y m :
  1 ≤ m ≤ 12 →
  MakeDay y (m - 1) 0
  = days_from_civil (previous_month y m).1 (previous_month y m).2
      (days_in_month (previous_month y m).1 (previous_month y m).2).
Proof.
  intros Hm.
  pose proof (previous_month_valid y m Hm) as Hv.
  pose proof (next_month_first (previous_month y m).1 (previous_month y m).2 Hv) as Hn.
  rewrite next_previous_month in Hn by done. cbn [fst snd] in Hn.
  rewrite (days_from_civil_day _ _ (days_in_month _ _)).
  rewrite MakeDay_month by done. rewrite (days_from_civil_day y m 0). lia.
Qed.

(** *** [addMonths] and [subMonths] on a date of the calendar *)

Lemma civil_fields y m d :
  1 ≤ m ≤ 12 → 1 ≤ d ≤ days_in_month y m →
  getFullYear (days_from_civil y m d) = y
  ∧ getMonth (days_from_civil y m d) = m - 1
  ∧ getDate (days_from_civil y m d) = d.
Proof.
  intros Hm Hd. unfold getFullYear, getMonth, getDate.
  by rewrite civil_from_days_from_civil.
Qed.

Lemma days_in_month_valid y m : 1 ≤ days_in_month y m ≤ days_in_month y m.
Proof. pose proof (days_in_month_bounds y m). lia. Qed.


Lemma subMonths_previous y m d minute :
  1 ≤ m ≤ 12 → 1 ≤ d ≤ days_in_month y m →
  DateFns.subMonths (LocalTime (days_from_civil y m d) minute) 1
  = LocalTime (days_from_civil (previous_month y m).1 (previous_month y m).2
                 (Z.min d (days_in_month (previous_month y m).1 (previous_month y m).2)))
      minute.
Proof.
  intros Hm Hd. unfold DateFns.subMonths, DateFns.addMonths. change (- (1)) with (-1). cbn [Z.eqb].
  destruct (civil_fields y m d Hm Hd) as (Hy & Hmo & Hda).
  unfold setMonth. rewrite Hy, Hmo, Hda.
  replace (m - 1 + -1 + 1) with (m - 1) by lia.
  rewrite MakeDay_end_of_previous_month by done.
  pose proof (previous_month_valid y m Hm) as Hv.
  destruct (previous_month y m) as [y2 m2]. cbn [fst snd] in *.
  destruct (civil_fields y2 m2 _ Hv (days_in_month_valid y2 m2)) as (Hy2 & Hmo2 & Hda2).
  rewrite Hy2, Hmo2, Hda2. unfold setFullYear.
  destruct (Z.leb_spec (days_in_month y2 m2) d).
  - by rewrite Z.min_r by lia.
  - rewrite Z.min_l by lia. by rewrite MakeDay_month.
Qed.



(** *** What [format] prints is read back *)

Lemma list_ascii_of_string_app s1 s2 :
  String.list_ascii_of_string (s1 +:+ s2)
  = String.list_ascii_of_string s1 ++ String.list_ascii_of_string s2.
Proof. induction s1 as [|c s1 IH]; simpl; [done|]. by rewrite IH. Qed.

Lemma digit_pretty_N_char k : (k < 10)%N → digit (pretty_N_char k) = Some (Z.of_N k).
Proof.
  intros Hk.
  assert (k = 0 ∨ k = 1 ∨ k = 2 ∨ k = 3 ∨ k = 4 ∨ k = 5 ∨ k = 6 ∨ k = 7 ∨ k = 8 ∨ k = 9)%N
    as Hcase by lia.
  destruct_or! Hcase; subst k; reflexivity.
Qed.

Lemma digit_zero : digit "0" = Some 0.
Proof. reflexivity. Qed.

(** The last decimal digit of [n], as [pretty] prints it, reads as [n mod 10]. *)
Lemma digit_last n : digit (pretty_N_char (n `mod` 10)%N) = Some (Z.of_N n mod 10).
Proof.
  rewrite digit_pretty_N_char by (apply N.mod_lt; lia). by rewrite N2Z.inj_mod.
Qed.

Lemma pretty_Z_digits y :
  0 < y → pretty y = pretty_N_go (Z.to_N y) "".
Proof.
  intros Hy. destruct y as [|p|p]; try lia.
  unfold pretty, pretty_Z, pretty, pretty_positive, pretty, pretty_N.
  by case_decide.
Qed.

Ltac ndiv_lia := zify; Z.to_euclidean_division_equations; lia.

Lemma pad4_digits (n : N) :
  (0 < n < 10000)%N →
  match String.list_ascii_of_string
          (DateFns.zeros (4 - String.length (pretty_N_go n "")) +:+ pretty_N_go n "") with
  | [a; b; c; d] =>
      match digit a, digit b, digit c, digit d with
      | Some a, Some b, Some c, Some d => 1000 * a + 100 * b + 10 * c + d =? Z.of_N n
      | _, _, _, _ => false
      end
  | _ => false
  end = true.
Proof.
  intros Hn.
  assert (n < 10 ∨ 10 ≤ n < 100 ∨ 100 ≤ n < 1000 ∨ 1000 ≤ n < 10000)%N as Hcase by lia.
  destruct_or! Hcase.
  - rewrite pretty_N_go_step by lia.
    rewrite (N.div_small n 10), pretty_N_go_0 by lia. cbn [String.length Nat.sub DateFns.zeros].
    rewrite list_ascii_of_string_app; cbn [String.list_ascii_of_string app].
    rewrite ?digit_zero, !digit_last. cbn -[Z.mul Z.add Z.eqb Z.modulo Z.div]. apply Z.eqb_eq. ndiv_lia.
  - do 2 (rewrite pretty_N_go_step by ndiv_lia).
    replace (N.div (N.div n 10) 10) with 0%N by ndiv_lia.
    rewrite pretty_N_go_0. cbn [String.length Nat.sub DateFns.zeros].
    rewrite list_ascii_of_string_app; cbn [String.list_ascii_of_string app].
    rewrite ?digit_zero, !digit_last, !N2Z.inj_div. cbn -[Z.mul Z.add Z.eqb Z.modulo Z.div]. apply Z.eqb_eq. ndiv_lia.
  - do 3 (rewrite pretty_N_go_step by ndiv_lia).
    replace (N.div (N.div (N.div n 10) 10) 10) with 0%N by ndiv_lia.
    rewrite pretty_N_go_0. cbn [String.length Nat.sub DateFns.zeros].
    rewrite list_ascii_of_string_app; cbn [String.list_ascii_of_string app].
    rewrite ?digit_zero, !digit_last, !N2Z.inj_div. cbn -[Z.mul Z.add Z.eqb Z.modulo Z.div]. apply Z.eqb_eq. ndiv_lia.
  - do 4 (rewrite pretty_N_go_step by ndiv_lia).
    replace (N.div (N.div (N.div (N.div n 10) 10) 10) 10) with 0%N by ndiv_lia.
    rewrite pretty_N_go_0. cbn [String.length Nat.sub DateFns.zeros].
    rewrite list_ascii_of_string_app; cbn [String.list_ascii_of_string app].
    rewrite ?digit_zero, !digit_last, !N2Z.inj_div. cbn -[Z.mul Z.add Z.eqb Z.modulo Z.div]. apply Z.eqb_eq. ndiv_lia.
Qed.

Lemma pad4_checked y : 1 ≤ y ≤ 9999 → pad4_ok y = true.
Proof.
  intros Hy. unfold pad4_ok, DateFns.addLeadingZeros.
  rewrite pretty_Z_digits by lia.
  pose proof (pad4_digits (Z.to_N y) ltac:(lia)) as H.
  by rewrite Z2N.id in H by lia.
Qed.

Lemma pad2_digits (n : N) :
  (0 < n < 100)%N →
  match String.list_ascii_of_string
          (DateFns.zeros (2 - String.length (pretty_N_go n "")) +:+ pretty_N_go n "") with
  | [a; b] =>
      match digit a, digit b with
      | Some a, Some b => 10 * a + b =? Z.of_N n
      | _, _ => false
      end
  | _ => false
  end = true.
Proof.
  intros Hn.
  assert (n < 10 ∨ 10 ≤ n < 100)%N as Hcase by lia.
  destruct_or! Hcase.
  - rewrite pretty_N_go_step by lia.
    rewrite (N.div_small n 10), pretty_N_go_0 by lia.
    cbn [String.length Nat.sub DateFns.zeros].
    rewrite list_ascii_of_string_app; cbn [String.list_ascii_of_string app].
    rewrite ?digit_zero, !digit_last. cbn -[Z.mul Z.add Z.eqb Z.modulo Z.div].
    apply Z.eqb_eq. ndiv_lia.
  - do 2 (rewrite pretty_N_go_step by ndiv_lia).
    replace (N.div (N.div n 10) 10) with 0%N by ndiv_lia.
    rewrite pretty_N_go_0. cbn [String.length Nat.sub DateFns.zeros].
    rewrite list_ascii_of_string_app; cbn [String.list_ascii_of_string app].
    rewrite ?digit_zero, !digit_last, !N2Z.inj_div. cbn -[Z.mul Z.add Z.eqb Z.modulo Z.div].
    apply Z.eqb_eq. ndiv_lia.
Qed.

Lemma pad2_checked n : 1 ≤ n ≤ 99 → pad2_ok n = true.
Proof.
  intros Hn. unfold pad2_ok, DateFns.addLeadingZeros.
  rewrite pretty_Z_digits by lia.
  pose proof (pad2_digits (Z.to_N n) ltac:(lia)) as H.
  by rewrite Z2N.id in H by lia.
Qed.

Lemma format_read_back y m d minute :
  1 ≤ y ≤ 9999 → 1 ≤ m ≤ 12 → 1 ≤ d ≤ days_in_month y m →
  ∃ s, DateFns.format (LocalTime (days_from_civil y m d) minute) = inr s
       ∧ parse_date_only s = Some (y, m, d).
Proof.
  intros Hy Hm Hd. unfold DateFns.format.
  destruct (civil_fields y m d Hm Hd) as (-> & -> & ->).
  destruct (Z.ltb_spec 0 y); [|lia].
  replace (m - 1 + 1) with m by lia.
  eexists. split; [done|].
  pose proof (days_in_month_bounds y m) as Hb.
  pose proof (pad4_checked y ltac:(lia)) as H4.
  pose proof (pad2_checked m ltac:(lia)) as Hmm.
  pose proof (pad2_checked d ltac:(lia)) as Hdd.
  unfold pad4_ok in H4. unfold pad2_ok in Hmm, Hdd.
  unfold parse_date_only. rewrite !list_ascii_of_string_app.
  destruct (String.list_ascii_of_string (DateFns.addLeadingZeros y 4))
    as [|y1 [|y2 [|y3 [|y4 [|]]]]]; try done.
  destruct (String.list_ascii_of_string (DateFns.addLeadingZeros m 2))
    as [|m1 [|m2 [|]]]; try done.
  destruct (String.list_ascii_of_string (DateFns.addLeadingZeros d 2))
    as [|d1 [|d2 [|]]]; try done.
  cbn [String.list_ascii_of_string app].
  destruct (digit y1) as [a1|], (digit y2) as [a2|], (digit y3) as [a3|],
    (digit y4) as [a4|]; try done.
  destruct (digit m1) as [b1|], (digit m2) as [b2|]; try done.
  destruct (digit d1) as [c1|], (digit d2) as [c2|]; try done.
  cbn [mbind option_bind].
  apply Z.eqb_eq in H4, Hmm, Hdd. rewrite H4, Hmm, Hdd.
  cbn [Ascii.eqb Bool.eqb andb].
  assert ((1 <=? m) && (m <=? 12) && (1 <=? d) && (d <=? days_in_month y m) = true) as ->.
  { repeat (apply andb_true_intro; split); lia. }
  done.
Qed.

(** ** The guards of the month buttons *)

Lemma parse_date_only_valid s y m d :
  parse_date_only s = Some (y, m, d) →
  0 ≤ y ≤ 9999 ∧ 1 ≤ m ≤ 12 ∧ 1 ≤ d ≤ days_in_month y m.
Proof.
  unfold parse_date_only. intros H.
  destruct (String.list_ascii_of_string s)
    as [|y1 [|y2 [|y3 [|y4 [|s1 [|m1 [|m2 [|s2 [|d1 [|d2 [|]]]]]]]]]]]; try done.
  assert (∀ c n, digit c = Some n → 0 ≤ n ≤ 9) as Hdigit.
  { intros c n. unfold digit. case_match; [|done]. intros [= <-]. lia. }
  destruct (digit y1) as [a1|] eqn:E1; [|done].
  destruct (digit y2) as [a2|] eqn:E2; [|done].
  destruct (digit y3) as [a3|] eqn:E3; [|done].
  destruct (digit y4) as [a4|] eqn:E4; [|done].
  destruct (digit m1) as [b1|]; [|done]. destruct (digit m2) as [b2|]; [|done].
  destruct (digit d1) as [c1|]; [|done]. destruct (digit d2) as [c2|]; [|done].
  cbn [mbind option_bind] in H.
  apply Hdigit in E1, E2, E3, E4.
  case_match eqn:Hc; [|done]. injection H as <- <- <-.
  repeat (apply andb_prop in Hc as [Hc ?]). lia.
Qed.

Lemma read_rows_lookup h ls rs (i : nat) l :
  read_rows h ls = Some rs → ls !! i = Some l → rs !! i = h !! l.
Proof.
  unfold read_rows. rewrite mapM_Some. intros H Hl.
  pose proof (Forall2_lookup_l _ _ _ _ _ H Hl) as (r & Hr & Hh). by rewrite Hr.
Qed.



Lemma previous_month_year y m : y - 1 ≤ (previous_month y m).1 ≤ y.
Proof. unfold previous_month. case_match; cbn; lia. Qed.

Lemma min_day_valid d y m : 1 ≤ d → 1 ≤ Z.min d (days_in_month y m) ≤ days_in_month y m.
Proof. pose proof (days_in_month_bounds y m). lia. Qed.

Lemma Array_get_lookup {A} (xs : list A) rowIndex x :
  Array_get xs rowIndex = Some x → 0 ≤ rowIndex ∧ xs !! Z.to_nat rowIndex = Some x.
Proof. unfold Array_get. destruct (Z.leb_spec 0 rowIndex); [|done]. done. Qed.

Lemma view_rows w hs rs :
  view w = Some (hs, rs) → read_rows (heap w) (rows (data w)) = Some rs ∧ hs = headers (data w).
Proof.
  unfold view, snapshot. destruct (read_rows _ _) as [rs'|]; [|done].
  cbn. by intros [= <- <-].
Qed.

(** The day before a date of the calendar is a date of the calendar. *)
Lemma day_before y m d :
  1 ≤ m ≤ 12 → 1 ≤ d ≤ days_in_month y m →
  ∃ y1 m1 d1, 1 ≤ m1 ≤ 12 ∧ 1 ≤ d1 ≤ days_in_month y1 m1 ∧ y - 1 ≤ y1 ≤ y
              ∧ days_from_civil y m d - 1 = days_from_civil y1 m1 d1.
Proof.
  intros Hm Hd. destruct (decide (d = 1)) as [->|Hd1].
  - pose proof (previous_month_valid y m Hm) as Hv.
    pose proof (previous_month_year y m) as Hy.
    pose proof (next_month_first (previous_month y m).1 (previous_month y m).2 Hv) as Hn.
    rewrite next_previous_month in Hn by done. cbn [fst snd] in Hn.
    destruct (previous_month y m) as [y1 m1]. cbn [fst snd] in *.
    exists y1, m1, (days_in_month y1 m1).
    pose proof (days_in_month_bounds y1 m1).
    rewrite (days_from_civil_day y1 m1 (days_in_month y1 m1)). lia.
  - exists y, m, (d - 1).
    rewrite (days_from_civil_day y m d), (days_from_civil_day y m (d - 1)). lia.
Qed.

Section MonthButtons.

Variables (offset UTC : Z → Z) (other : string → Date) (time_of_other : string → option Z).

Lemma time_value_date_only s y m d :
  parse_date_only s = Some (y, m, d) →
  time_value time_of_other s = Some (days_from_civil y m d * minutesPerDay).
Proof.
  intros H. unfold time_value. rewrite H.
  destruct (parse_date_only_valid _ _ _ _ H) as (_ & Hm & _).
  by rewrite MakeDay_month.
Qed.






(** In a zone that is west of UTC at the date of the row and never
    east of it, the guard of the decrement button lets a row take the
    date of the row before it: when the date that [decrementMonth]
    writes is the date of the previous row, the button is not
    disabled, the handler writes that date, and the rows are no longer
    in ascending order. *)
Theorem decrement_guard_west rowIndex w l row lp prev y m d tz :
  offset_at offset (date row) = tz →
  -1440 < tz < 0 →
  (∀ t, t ≤ UTC t) →
  0 < rowIndex →
  Array_get (rows (data w)) rowIndex = Some l →
  heap w !! l = Some row →
  Array_get (rows (data w)) (rowIndex - 1) = Some lp →
  heap w !! lp = Some prev →
  parse_date_only (date row) = Some (y, m, d) →
  2 < y →
  DateFns.format (DateFns.subMonths (new_Date tz other (date row)) 1) = inr (date prev) →
  let w' := decrementMonth tz other rowIndex w in
  decrement_disabled offset UTC other time_of_other rowIndex w = Some false
  ∧ heap w' !! l = Some (with_date row (date prev))
  ∧ ∀ hs rs', view w' = Some (hs, rs') → ¬ ascending time_of_other rs'.
Proof.
  intros Hoff Htz Hwest Hpos Hl Hrow Hlp Hprev Hparse Hy Hfmt w'. subst w'.
  rewrite (decrementMonth_eq tz other rowIndex w l row (date prev) Hl Hrow Hfmt).
  cbn [heap set_heap].
  assert (l < length (heap w))%nat as Hlt by (by eapply lookup_lt_Some).
  split; [|split].
  - destruct (parse_date_only_valid _ _ _ _ Hparse) as (Hy9 & Hm & Hd).
    pose proof (new_Date_west tz other _ _ _ _ ltac:(lia) Hparse) as Hnow.
    rewrite MakeDay_month in Hnow by done.
    destruct (day_before y m d Hm Hd) as (y1 & m1 & d1 & Hm1 & Hd1 & Hy1 & Hday).
    rewrite Hday in Hnow. rewrite Hnow in Hfmt.
    rewrite (subMonths_previous y1 m1 d1 _ Hm1 Hd1) in Hfmt.
    pose proof (previous_month_valid y1 m1 Hm1) as Hm2.
    pose proof (previous_month_year y1 m1) as Hy2.
    unfold decrement_disabled. rewrite Hl. cbn. rewrite Hrow. cbn.
    destruct (Z.ltb_spec 0 rowIndex); [|lia].
    rewrite Hlp. cbn. rewrite Hprev. cbn.
    rewrite Hoff, Hnow, (subMonths_previous y1 m1 d1 _ Hm1 Hd1).
    destruct (previous_month y1 m1) as [y2 m2]. cbn [fst snd] in *.
    set (d2 := Z.min d1 (days_in_month y2 m2)) in *.
    assert (1 ≤ d2 ≤ days_in_month y2 m2) as Hd2 by (apply min_day_valid; lia).
    destruct (format_read_back y2 m2 d2 (tz + 1440) ltac:(lia) Hm2 Hd2)
      as (s & Hfmt' & Hread).
    assert (s = date prev) as -> by congruence.
    rewrite (time_value_date_only _ _ _ _ Hread).
    unfold Date_le, shifted_time. f_equal. apply Z.leb_gt.
    pose proof (Hwest (days_from_civil y2 m2 d2 * minutesPerDay + (tz + 1440))).
    unfold minutesPerDay in *. lia.
  - by apply list_lookup_insert_eq.
  - intros hs rs' Hview Hasc.
    destruct (view_rows _ _ _ Hview) as [Hrs _]. cbn [heap data set_heap] in Hrs.
    destruct (Array_get_lookup _ _ _ Hl) as [_ Hi].
    destruct (Array_get_lookup _ _ _ Hlp) as [_ Hj].
    replace (Z.to_nat rowIndex) with (S (Z.to_nat (rowIndex - 1))) in Hi by lia.
    set (j := Z.to_nat (rowIndex - 1)) in *.
    pose proof (read_rows_lookup _ _ _ _ _ Hrs Hi) as H2.
    pose proof (read_rows_lookup _ _ _ _ _ Hrs Hj) as H1.
    rewrite list_lookup_insert_eq in H2 by done.
    assert (∃ r1, rs' !! j = Some r1 ∧ date r1 = date prev) as (r1 & Hr1 & Hdate).
    { destruct (decide (lp = l)) as [->|Hne].
      - rewrite list_lookup_insert_eq in H1 by done. by eexists.
      - exists prev. split; [|done]. rewrite H1.
        transitivity (heap w !! lp); [|done]. by apply list_lookup_insert_ne. }
    destruct (Hasc j r1 _ Hr1 H2) as (x & x' & Hx & Hx' & Hxx).
    cbn [date with_date] in Hx'. rewrite Hdate in Hx. simplify_eq. lia.
Qed.

End MonthButtons.

Lemma two_rows_ascending s1 s2 x y :
  time_value no_other_time s1 = Some x → time_value no_other_time s2 = Some y → x < y →
  ascending no_other_time [ {| date := s1; values := ∅; hidden := None |};
                            {| date := s2; values := ∅; hidden := None |} ].
Proof.
  intros H1 H2 Hlt i r1 r2 Hr1 Hr2.
  destruct i as [|[|i]]; cbn in Hr1, Hr2; [|done|done]. simplify_eq.
  by exists x, y.
Qed.

Lemma two_rows_same_date s :
  ¬ ascending no_other_time [ {| date := s; values := ∅; hidden := None |};
                              {| date := s; values := ∅; hidden := None |} ].
Proof.
  intros Hasc. destruct (Hasc 0%nat _ _ eq_refl eq_refl) as (x & y & Hx & Hy & Hlt).
  cbn [date] in Hx, Hy. simplify_eq. lia.
Qed.


(** Across the switch to daylight saving time the guards let a row
    take the date of its neighbour, also east of UTC.  In Berlin,
    with rows dated 2027-03-15 and 2027-04-15, both buttons are
    enabled: the date a month after 2027-03-15 is 01:00 of 2027-04-15
    in local time, which is 23:00 UTC of the day before and so
    earlier than the date of the next row; the date a month before
    2027-04-15 is 02:00 of 2027-03-15 in local time, which is 01:00
    UTC and so later than the date of the previous row.  Each handler
    then gives the two rows the same date. *)
Example month_buttons_across_the_switch :
  let row s := {| date := s; values := ∅; hidden := None |} in
  offset_at berlin_offset "2027-03-15" = 60
  ∧ offset_at berlin_offset "2027-04-15" = 120
  ∧ ascending no_other_time [row "2027-03-15"; row "2027-04-15"]
  ∧ increment_disabled berlin_offset berlin_UTC no_other_format no_other_time 0 spring_world
    = Some false
  ∧ view (incrementMonth 60 no_other_format 0 spring_world)
    = Some ([], [row "2027-04-15"; row "2027-04-15"])
  ∧ decrement_disabled berlin_offset berlin_UTC no_other_format no_other_time 1 spring_world
    = Some false
  ∧ view (decrementMonth 120 no_other_format 1 spring_world)
    = Some ([], [row "2027-03-15"; row "2027-03-15"])
  ∧ ¬ ascending no_other_time [row "2027-04-15"; row "2027-04-15"]
  ∧ ¬ ascending no_other_time [row "2027-03-15"; row "2027-03-15"].
Proof.
  cbn zeta.
  split; [vm_compute; reflexivity|]. split; [vm_compute; reflexivity|].
  split; [by apply (two_rows_ascending _ _ 30084480 30129120)|].
  split; [vm_compute; reflexivity|]. split; [vm_compute; reflexivity|].
  split; [vm_compute; reflexivity|]. split; [vm_compute; reflexivity|].
  split; apply two_rows_same_date.
Qed.

Lemma decrement_guard_west_witness :
  ascending no_other_time
    [ {| date := "2027-01-14"; values := ∅; hidden := None |};
      {| date := "2027-02-15"; values := ∅; hidden := None |} ]
  ∧ decrement_disabled (fixed_offset (-300)) (fixed_UTC (-300)) no_other_format no_other_time
      1 dated_world = Some false
  ∧ heap (decrementMonth (-300) no_other_format 1 dated_world) !! 1%nat
    = Some {| date := "2027-01-14"; values := ∅; hidden := None |}.
Proof.
  split.
  - by apply (two_rows_ascending _ _ 29998080 30044160).
  - pose proof (decrement_guard_west (fixed_offset (-300)) (fixed_UTC (-300))
                  no_other_format no_other_time 1 dated_world 1%nat
                  {| date := "2027-02-15"; values := ∅; hidden := None |} 0%nat
                  {| date := "2027-01-14"; values := ∅; hidden := None |}
                  2027 2 15 (-300) eq_refl ltac:(lia)
                  ltac:(intros t; unfold fixed_UTC; lia) ltac:(lia)
                  eq_refl eq_refl eq_refl eq_refl eq_refl
                  ltac:(lia) eq_refl) as (Hguard & Hrow & _).
    split; [exact Hguard|exact Hrow].
Defined.
